(** * The access-token credential store (package [accesstoken])

    A shallow embedding of [CredentialStore] and its four operations
    [Create], [Check], [List] and [Delete], together with the properties
    its design document states about them.  The static asset handler
    (package [static]) and the balance and transaction listings of the
    query handlers (package [blockchain]) follow.

    Conventions.
    - A Go [string] and a Go [[]byte] holding text (database keys and
      values, JSON documents) are both [string]: a sequence of 8-bit
      characters.  The conversions [string(b)] and [[]byte(s)] are the
      identity on contents.
    - Raw secret and hash material ([[tokenSize]byte]) is [list byte].
    - A Go [int] is a [Z] in the 64-bit two's-complement range, with the
      wrap-around of [+] written out ([int_add]).
    - [dbm.DB] is a finite map from keys to values; [Get] answers [None]
      where the Go code sees [nil].
    - A Go run-time panic is the outcome [Panic]. *)

From Stdlib Require Import ZArith Ascii String List Bool Lia.
From Stdlib Require Import Strings.Byte DecimalString DecimalPos.
From stdpp Require Import gmap strings list fin_maps sorting.

Local Open Scope string_scope.
Local Open Scope Z_scope.

(** ** Constants and package-level errors *)

Definition tokenSize : Z := 32.
Definition defGenericPageSize : Z := 100.

(** The error values the package can hand back.  The first four are the
    package-level variables; [ErrInvalidAfter] and [ErrNoAccessToken] are
    the two [errors.New] values built inside [List]; [ErrRand] and
    [ErrJSON] stand for errors coming from [crypto/rand] and
    [encoding/json], which are never identical to a package-level one.
    [errors.WithDetailf] keeps the root error, so the detail text is not
    modelled. *)
Inductive error : Type :=
| ErrBadID
| ErrDuplicateID
| ErrBadType
| ErrNoMatchID
| ErrInvalidAfter
| ErrNoAccessToken
| ErrRand (msg : string)
| ErrJSON (msg : string).

(** ** [validIDRegexp]: the identifier pattern *)

Module Regexp.

(** One item of a bracket expression. *)
Inductive class_item : Type :=
| PerlWord                      (* \w *)
| Range (lo hi : ascii)         (* lo-hi *)
| Lit (c : ascii).              (* a single character *)

Definition code (c : ascii) : N := N_of_ascii c.

Definition in_range (lo hi c : ascii) : bool :=
  (code lo <=? code c)%N && (code c <=? code hi)%N.

(** RE2's [\w] is exactly [[0-9A-Za-z_]]; it is ASCII-only. *)
Definition is_word (c : ascii) : bool :=
  in_range "0" "9" c || in_range "A" "Z" c || in_range "a" "z" c
  || Ascii.eqb c "_".

Definition item_match (it : class_item) (c : ascii) : bool :=
  match it with
  | PerlWord => is_word c
  | Range lo hi => in_range lo hi c
  | Lit d => Ascii.eqb c d
  end.

Definition class_match (cls : list class_item) (c : ascii) : bool :=
  existsb (fun it => item_match it c) cls.

Fixpoint all_chars (p : ascii -> bool) (s : string) : bool :=
  match s with
  | EmptyString => true
  | String c r => p c && all_chars p r
  end.

(** [MatchString] for a pattern of the shape [^[cls]+$]: without the
    [m] flag [^] and [$] anchor at the two ends of the text, so the whole
    text must be one or more characters of the class.  A byte outside
    ASCII is never in an ASCII class. *)
Definition MatchString (cls : list class_item) (s : string) : bool :=
  match s with
  | EmptyString => false
  | String _ _ => all_chars (class_match cls) s
  end.

End Regexp.

(** [regexp.MustCompile(`^[\w-]+$`)] *)
Definition validIDRegexp : list Regexp.class_item :=
  [Regexp.PerlWord; Regexp.Lit "-"].

(** The pattern as the design document writes it, [^[A-Za-z0-9_-]+$]. *)
Definition spec_id_pattern : list Regexp.class_item :=
  [Regexp.Range "A" "Z"; Regexp.Range "a" "z"; Regexp.Range "0" "9";
   Regexp.Lit "_"; Regexp.Lit "-"].

(** ** Byte buffers *)

Definition zeros (n : nat) : list byte := repeat x00 n.

(** Go's builtin [copy(dst, src)]: overwrites the first
    [min(len(dst), len(src))] elements of [dst]. *)
Definition copy (dst src : list byte) : list byte :=
  let n := Nat.min (length dst) (length src) in
  firstn n src ++ skipn n dst.

(** The fixed-width framing of the design document: the bytes of [s],
    truncated to 32 or followed by zero padding up to 32. *)
Definition frame32 (s : list byte) : list byte :=
  firstn 32 s ++ repeat x00 (32 - length s)%nat.

(** ** [fmt.Sprintf("%s:%x", id, bytes)] and hex decoding *)

Definition hexdigit (n : N) : ascii :=
  if (n <? 10)%N then ascii_of_N (48 + n) else ascii_of_N (87 + n).

Definition hex_of_byte (b : byte) : string :=
  let n := Byte.to_N b in
  String (hexdigit (n / 16)) (String (hexdigit (n mod 16)) EmptyString).

(** The verb [%x] applied to a byte slice or byte array: two lower-case
    digits per byte, no separator. *)
Fixpoint hex_encode (bs : list byte) : string :=
  match bs with
  | [] => EmptyString
  | b :: r => hex_of_byte b ++ hex_encode r
  end.

Definition Sprintf_s_x (id : string) (bs : list byte) : string :=
  id ++ ":" ++ hex_encode bs.

Definition hexval (c : ascii) : option N :=
  let n := N_of_ascii c in
  if Regexp.in_range "0" "9" c then Some (n - 48)%N
  else if Regexp.in_range "a" "f" c then Some (n - 87)%N
  else if Regexp.in_range "A" "F" c then Some (n - 55)%N
  else None.

(** [hex.DecodeString]: an even number of hex digits, two per byte. *)
Fixpoint hex_decode (s : string) : option (list byte) :=
  match s with
  | EmptyString => Some []
  | String _ EmptyString => None
  | String h (String l r) =>
      match hexval h, hexval l, hex_decode r with
      | Some a, Some b, Some bs =>
          match Byte.of_N (a * 16 + b) with
          | Some x => Some (x :: bs)
          | None => None
          end
      | _, _, _ => None
      end
  end.

(** [strings.TrimPrefix] with a report of whether the prefix was there:
    the part of [s] after the prefix [p]. *)
Fixpoint strip_prefix (p s : string) : option string :=
  match p, s with
  | EmptyString, _ => Some s
  | String a p', String b s' =>
      if Ascii.eqb a b then strip_prefix p' s' else None
  | String _ _, EmptyString => None
  end.

(** [strings.Compare]: -1, 0 or +1. *)
Definition strings_Compare (a b : string) : Z :=
  match String.compare a b with
  | Eq => 0
  | Lt => -1
  | Gt => 1
  end.

(** ** [encoding/json] on identifiers *)

Definition dquote : ascii := ascii_of_nat 34.

(** [json.Marshal] of a Go string that needs no escaping: the text
    between two double quotes.  The encoder escapes the quote, the
    backslash, control characters, the three HTML characters and bytes
    outside ASCII; [validIDRegexp] admits none of them and every call of
    the package sits behind that check, so the escaping is not modelled.
    Marshalling a string never fails. *)
Definition json_Marshal_string (s : string) : string :=
  String dquote (s ++ String dquote EmptyString).

(** The characters the JSON encoder writes as they are and the decoder
    reads back as they are: printable ASCII other than the quote, the
    backslash and the HTML characters [<], [>] and [&]. *)
Definition json_verbatim (c : ascii) : bool :=
  Regexp.in_range " " "~" c
  && negb (Ascii.eqb c dquote) && negb (Ascii.eqb c "\")
  && negb (Ascii.eqb c "<") && negb (Ascii.eqb c ">")
  && negb (Ascii.eqb c "&").

(** ** Go's [int], [strconv.Atoi] and [strconv.Itoa] *)

Definition int_min : Z := - 2 ^ 63.
Definition int_max : Z := 2 ^ 63 - 1.

Definition int_wrap (z : Z) : Z := (z + 2 ^ 63) mod 2 ^ 64 - 2 ^ 63.

(** [a + b] on [int]: silent wrap-around. *)
Definition int_add (a b : Z) : Z := int_wrap (a + b).

Definition digit_val (c : ascii) : option Z :=
  if Regexp.in_range "0" "9" c then Some (Z.of_N (N_of_ascii c) - 48)
  else None.

(** The value of a run of decimal digits, or [None] at the first
    character that is not a digit. *)
Fixpoint parse_digits (acc : Z) (s : string) : option Z :=
  match s with
  | EmptyString => Some acc
  | String c r =>
      match digit_val c with
      | Some d => parse_digits (acc * 10 + d) r
      | None => None
      end
  end.

Definition in_int_range (z : Z) : option Z :=
  if (int_min <=? z) && (z <=? int_max) then Some z else None.

(** [strconv.Atoi]: an optional sign, then one or more decimal digits;
    a syntax error or a value outside [int] is [None]. *)
Definition Atoi (s : string) : option Z :=
  let digits (r : string) : option Z :=
    match r with
    | EmptyString => None
    | String _ _ => parse_digits 0 r
    end in
  match s with
  | EmptyString => None
  | String c r =>
      if Ascii.eqb c "-" then
        match digits r with Some n => in_int_range (- n) | None => None end
      else if Ascii.eqb c "+" then
        match digits r with Some n => in_int_range n | None => None end
      else
        match digits s with Some n => in_int_range n | None => None end
  end.

(** [strconv.Itoa]: the decimal digits, after a minus sign when negative. *)
Definition Itoa (z : Z) : string := NilZero.string_of_int (Z.to_int z).

(** ** Panics and slicing *)

Inductive outcome (A : Type) : Type :=
| Returns (a : A)
| Panics.
Arguments Returns {A} a.
Arguments Panics {A}.

(** The slice expression [l[lo:hi]].  Go panics unless
    [0 <= lo <= hi <= cap(l)]; [List] never asks for [hi] above [len(l)],
    where capacity and length give the same answer, so the bound is
    written with the length. *)
Definition slice {A : Type} (l : list A) (lo hi : Z) : outcome (list A) :=
  if (0 <=? lo) && (lo <=? hi) && (hi <=? Z.of_nat (length l))
  then Returns (firstn (Z.to_nat (hi - lo)) (skipn (Z.to_nat lo) l))
  else Panics.

(** ** The key-value store [dbm.DB] *)

Module DB.

Definition Get (db : gmap string string) (k : string) : option string :=
  db !! k.

Definition Set_ (db : gmap string string) (k v : string)
  : gmap string string := <[k := v]> db.

Definition Delete (db : gmap string string) (k : string)
  : gmap string string := delete k db.

(** [Iterator()] walks every entry once, in the order of the store. *)
Definition Iterator (db : gmap string string) : list (string * string) :=
  map_to_list db.

End DB.

(** ** [crypto/rand] *)

(** What one call of [rand.Read] does: the bytes the source delivers and
    the error it reports. *)
Record RandRead : Type := {
  rand_bytes : list byte;
  rand_err : option string
}.

(** The error of [io.ReadFull], which is what [rand.Read] is: the error
    of the source if it reports one; otherwise, when [n] bytes were read
    and [len] were asked for, nil for a full buffer, and for a buffer left
    short the end of the source, [io.EOF] when nothing was read and
    [io.ErrUnexpectedEOF] after a partial read.  A short count never comes
    with a nil error. *)
Definition ReadFull_err (own : option string) (n len : nat)
  : option error :=
  match own with
  | Some msg => Some (ErrRand msg)
  | None =>
      if (n <? len)%nat then
        Some (ErrRand (if (n =? 0)%nat then "EOF" else "unexpected EOF"))
      else None
  end.

(** [rand.Read(buf)]: the buffer after the call, the count of bytes
    filled and the error. *)
Definition rand_Read (r : RandRead) (buf : list byte)
  : list byte * Z * option error :=
  let n := Nat.min (length buf) (length (rand_bytes r)) in
  (copy buf (rand_bytes r),
   Z.of_nat n,
   ReadFull_err (rand_err r) n (length buf)).

(** ** The credential store *)

Section CredentialStore.

(** [time.Time]: the store only records the instant, it never looks
    inside. *)
Variable Time : Type.

(** [type Token struct]; the field [Token] is [TokenDigest] here, the
    name the design document gives it. *)
Record Token : Type := {
  ID : string;
  TokenDigest : string;
  Type_ : string;
  Created : Time
}.

(** [sha3pool.Sum256(hash, data)] with a [tokenSize]-byte destination:
    the content of the destination afterwards. *)
Variable Sum256 : list byte -> list byte.

(** [json.Marshal(token)] and [json.Unmarshal(value, token)] into an
    empty [Token]: the result, or the message of the error. *)
Variable json_Marshal_Token : Token -> string + string.
Variable json_Unmarshal_Token : string -> Token + string.

(** What is asked of the JSON codec: a record that was encoded decodes
    again, and a digest made of characters that JSON writes verbatim
    comes back as it was. *)
Definition json_codec_contract : Prop :=
  forall (tok : Token) (value : string),
    Regexp.all_chars json_verbatim (TokenDigest tok) = true ->
    json_Marshal_Token tok = inl value ->
    exists tok' : Token,
      json_Unmarshal_Token value = inl tok'
      /\ TokenDigest tok' = TokenDigest tok.

(** The method [Create(ctx, id, typ)], which returns a pointer to the
    issuance string and an error.
    The store after the call is returned next to the two results; [rnd]
    is what [rand.Read] does during the call and [now] what
    [time.Now()] answers.  [ctx] is not used by the code. *)
Definition Create (db : gmap string string) (rnd : RandRead) (now : Time)
    (id typ : string)
  : option string * option error * gmap string string :=
  if negb (Regexp.MatchString validIDRegexp id) then
    (None, Some ErrBadID, db)
  else
    let k := json_Marshal_string id in
    match DB.Get db k with
    | Some _ => (None, Some ErrDuplicateID, db)
    | None =>
        let '(secret, v, err) := rand_Read rnd (zeros (Z.to_nat tokenSize)) in
        if bool_decide (err <> None) || negb (v =? tokenSize) then
          (None, err, db)
        else
          let hashedSecret := Sum256 secret in
          let token := {| ID := id;
                          TokenDigest := Sprintf_s_x id hashedSecret;
                          Type_ := typ;
                          Created := now |} in
          let key := json_Marshal_string id in
          match json_Marshal_Token token with
          | inr e => (None, Some (ErrJSON e), db)
          | inl value =>
              let db' := DB.Set_ db key value in
              let hexsec := Sprintf_s_x id secret in
              (Some hexsec, None, db')
          end
    end.

(** The record [Create] persists for [id], [typ] and the secret. *)
Definition record_of (id typ : string) (secret : list byte) (now : Time)
  : Token :=
  {| ID := id;
     TokenDigest := Sprintf_s_x id (Sum256 secret);
     Type_ := typ;
     Created := now |}.

(** The method [Check(ctx, id, secret)], which returns a boolean and an
    error.
    The store is only read. *)
Definition Check (db : gmap string string) (id : string)
    (secret : list byte) : bool * option error :=
  if negb (Regexp.MatchString validIDRegexp id) then
    (false, Some ErrBadID)
  else
    let toHash := copy (zeros (Z.to_nat tokenSize)) secret in
    let hashed := Sum256 toHash in
    let inToken := Sprintf_s_x id hashed in
    let k := json_Marshal_string id in
    match DB.Get db k with
    | None => (false, Some ErrNoMatchID)
    | Some value =>
        match json_Unmarshal_Token value with
        | inr e => (false, Some (ErrJSON e))
        | inl token =>
            if strings_Compare (TokenDigest token) inToken =? 0 then
              (true, None)
            else
              (false, None)
        end
    end.

(** The method [Delete(ctx, id)], which returns an error. *)
Definition Delete (db : gmap string string) (id : string)
  : option error * gmap string string :=
  if negb (Regexp.MatchString validIDRegexp id) then
    (Some ErrBadID, db)
  else
    let k := json_Marshal_string id in
    (None, DB.Delete db k).

End CredentialStore.

Arguments ID {Time} _.
Arguments TokenDigest {Time} _.
Arguments Type_ {Time} _.
Arguments Created {Time} _.

(** The loop [for iter.Next() { tokens = append(tokens, string(iter.Value())) }]. *)
Definition collect_values (it : list (string * string)) : list string :=
  fold_left (fun tokens kv => (tokens ++ [snd kv])%list) it [].

(** The method [List(after, limit, defaultLimit)], which returns the
    items, the next cursor, the last-page flag and an error; a [nil] slice
    is the empty list. *)
Definition List (db : gmap string string) (after : string)
    (limit defaultLimit : Z)
  : outcome (list string * string * bool * option error) :=
  let parsed :=
    if String.eqb after "" then Some 0 else Atoi after in
  match parsed with
  | None => Returns ([], "", false, Some ErrInvalidAfter)
  | Some zafter =>
      let tokens := collect_values (DB.Iterator db) in
      let len := Z.of_nat (length tokens) in
      if len =? 0 then
        Returns ([], "", true, Some ErrNoAccessToken)
      else if len >? zafter then
        let start := zafter in
        let end_ :=
          if len >? int_add zafter limit then int_add zafter limit
          else len in
        let last := (len =? end_) || (len <? defaultLimit) in
        match slice tokens start end_ with
        | Panics => Panics
        | Returns items => Returns (items, Itoa end_, last, None)
        end
      else
        Returns ([], "", false, Some ErrInvalidAfter)
  end.

(** What [List] reads from the store: the values, in iteration order. *)
Definition stored_values (db : gmap string string) : list string :=
  map snd (DB.Iterator db).

(** The offset [List] works with: the empty cursor is offset 0, any other
    cursor goes through [strconv.Atoi]. *)
Definition cursor_offset (after : string) : option Z :=
  if String.eqb after "" then Some 0 else Atoi after.

(** The characters [%x] writes: digits and the letters a to f. *)
Definition is_lower_hex (c : ascii) : bool :=
  Regexp.in_range "0" "9" c || Regexp.in_range "a" "f" c.

(** ** A reference set of collaborators

    Concrete stand-ins for the clock, the hash and the JSON codec, used to
    run the store on concrete inputs.  The instant is its RFC 3339 text,
    the form in which JSON carries a [time.Time]. *)

Module Reference.

Definition Time : Type := string.

(** A stand-in for the 32-byte digest: the input read backwards, framed
    to [tokenSize] bytes.  It is deterministic, which is all the store
    relies on; it is of course not one-way. *)
Definition Sum256 (data : list byte) : list byte :=
  copy (zeros (Z.to_nat tokenSize)) (rev data).

Definition quoted (s rest : string) : string :=
  String dquote (s ++ String dquote rest).

Definition id_tag : string := "{" ++ quoted "id" ":".
Definition token_tag : string := "," ++ quoted "token" ":".
Definition type_tag : string := "," ++ quoted "type" ":".
Definition created_tag : string := "," ++ quoted "created_at" ":".

(** Writes the four fields in the order of the struct.  The stand-in
    covers the records for which [encoding/json] writes every field as it
    is: it does not escape and it does not drop an empty field, and so it
    refuses a record with a character that needs escaping or with an empty
    digest or type, where [encoding/json] would escape or drop.  Nothing
    below is concluded from a refusal. *)
Definition json_Marshal_Token (tok : Token Time) : string + string :=
  if Regexp.all_chars json_verbatim (ID tok)
     && Regexp.all_chars json_verbatim (TokenDigest tok)
     && Regexp.all_chars json_verbatim (Type_ tok)
     && Regexp.all_chars json_verbatim (Created tok)
     && negb (String.eqb (TokenDigest tok) "")
     && negb (String.eqb (Type_ tok) "")
  then
    inl (id_tag ++ quoted (ID tok)
          (token_tag ++ quoted (TokenDigest tok)
            (type_tag ++ quoted (Type_ tok)
              (created_tag ++ quoted (Created tok) "}"))))
  else inr "json: unsupported value".

(** The text up to the next double quote, and what follows the quote. *)
Fixpoint until_quote (s : string) : option (string * string) :=
  match s with
  | EmptyString => None
  | String c r =>
      if Ascii.eqb c dquote then Some (EmptyString, r)
      else match until_quote r with
           | Some (a, rest) => Some (String c a, rest)
           | None => None
           end
  end.

(** One field: the tag, an opening quote, the text, a closing quote. *)
Definition field (tag s : string) : option (string * string) :=
  match strip_prefix tag s with
  | Some (String c r) => if Ascii.eqb c dquote then until_quote r else None
  | _ => None
  end.

Definition json_Unmarshal_Token (value : string) : Token Time + string :=
  match field id_tag value with
  | Some (id, s1) =>
      match field token_tag s1 with
      | Some (digest, s2) =>
          match field type_tag s2 with
          | Some (typ, s3) =>
              match field created_tag s3 with
              | Some (created, "}") =>
                  inl {| ID := id; TokenDigest := digest;
                         Type_ := typ; Created := created |}
              | _ => inr "json: unexpected end of input"
              end
          | None => inr "json: cannot read type"
          end
      | None => inr "json: cannot read token"
      end
  | None => inr "json: cannot read id"
  end.

(** The secret the examples draw: the bytes 0, 1, ..., 31. *)
Definition secret0 : list byte :=
  [x00; x01; x02; x03; x04; x05; x06; x07;
   x08; x09; x0a; x0b; x0c; x0d; x0e; x0f;
   x10; x11; x12; x13; x14; x15; x16; x17;
   x18; x19; x1a; x1b; x1c; x1d; x1e; x1f].

Definition rand_ok : RandRead :=
  {| rand_bytes := secret0; rand_err := None |}.

(** A source that ends after 16 bytes without an error of its own. *)
Definition rand_short : RandRead :=
  {| rand_bytes := firstn 16 secret0; rand_err := None |}.

Definition now0 : Time := "2017-11-01T08:00:00Z".

(** The record of ["alice"], its encoding, and the store that holds
    just that record. *)
Definition alice_record : Token Time :=
  record_of Time Sum256 "alice" "client" secret0 now0.

Definition alice_value : string :=
  match json_Marshal_Token alice_record with
  | inl value => value
  | inr _ => EmptyString
  end.

Definition store1 : gmap string string :=
  DB.Set_ ∅ (json_Marshal_string "alice") alice_value.

(** 32 bytes that are not the secret of ["alice"]. *)
Definition other_secret : list byte := rev secret0.

(** A source that fails after 8 bytes. *)
Definition rand_failed : RandRead :=
  {| rand_bytes := firstn 8 secret0; rand_err := Some "unexpected EOF" |}.

(** The store with a second record, for ["bob"]. *)
Definition bob_value : string :=
  match json_Marshal_Token
          (record_of Time Sum256 "bob" "client" secret0 now0) with
  | inl value => value
  | inr _ => EmptyString
  end.

Definition store2 : gmap string string :=
  DB.Set_ store1 (json_Marshal_string "bob") bob_value.

End Reference.

(** * The static asset handler (package [static]) *)

Module Static.

(** [type Handler struct]. *)
Record Handler : Type := {
  Assets : gmap string string;
  Index : string;
  Default : string
}.

(** What [ServeHTTP] hands to [net/http]: either [http.NotFound], or the
    header [X-Frame-Options] followed by [http.ServeContent] with a name
    and a content.  The modification time is the package variable
    [lastMod], the same for every call, and is not carried. *)
Inductive response : Type :=
| NotFound
| ServeContent (x_frame_options name content : string).

(** Reading a Go map with one result: the zero value for a missing key. *)
Definition map_index (m : gmap string string) (k : string) : string :=
  match m !! k with
  | Some v => v
  | None => EmptyString
  end.

(** Reading a Go map with two results: the value and whether it is there. *)
Definition map_index_ok (m : gmap string string) (k : string)
  : string * bool :=
  match m !! k with
  | Some v => (v, true)
  | None => (EmptyString, false)
  end.

(** The method [ServeHTTP(rw, r)]; [path] is [r.URL.Path]. *)
Definition ServeHTTP (h : Handler) (path : string) : response :=
  let '(output, ok) := map_index_ok (Assets h) path in
  if negb ok && String.eqb path "" && negb (String.eqb (Index h) "") then
    ServeContent "SAMEORIGIN" path (map_index (Assets h) (Index h))
  else if negb ok && negb (String.eqb (Default h) "") then
    ServeContent "SAMEORIGIN" path (map_index (Assets h) (Default h))
  else if negb ok then
    NotFound
  else
    ServeContent "SAMEORIGIN" path output.

(** A handler for the examples: an index page, a script, and a fallback
    name that has no entry. *)
Definition site : Handler :=
  {| Assets := <["index.html" := "<html>"]> (<["app.js" := "run()"]> ∅);
     Index := "index.html";
     Default := "missing.html" |}.

End Static.

(** * The query handlers (package [blockchain]) *)

Module Query.

(** [+=] on [uint64]: silent wrap-around. *)
Definition uint64_add (a b : Z) : Z := (a + b) mod 2 ^ 64.

(** [sort.Strings]: increasing byte-wise order.  The sorted arrangement
    of a list of strings is unique, so any sorting function gives what
    Go's gives. *)
Definition sort_Strings (l : list string) : list string :=
  merge_sort String.le l.

(** The keys a [for k := range m] loop visits, in the order of the
    visit. *)
Definition range_keys {V : Type} (m : gmap string V) : list string :=
  fst <$> map_to_list m.

Section Balances.

(** The type of the field [AssetID] of [account.UTXO], declared outside
    these files, and what [fmt.Sprintf("%x", assetID)] writes for it. *)
Variable AssetIDType : Type.
Variable Sprintf_x : AssetIDType -> string.

(** [account.UTXO], with the fields [listBalances] reads. *)
Record UTXO : Type := {
  AssetID : AssetIDType;
  Amount : Z;
  AccountID : string
}.

(** [json.Marshal(assetAmounts)] for the local [[]assetAmount], a list
    of asset identifier and amount; its error is discarded by the code. *)
Variable json_Marshal_assetAmounts : list (string * Z) -> string.

(** One turn of the first loop of [listBalances]. *)
Definition add_utxo (accBalance : gmap string (gmap string Z))
    (accountUTXO : UTXO) : gmap string (gmap string Z) :=
  let assetID := Sprintf_x (AssetID accountUTXO) in
  match accBalance !! AccountID accountUTXO with
  | Some balances =>
      match balances !! assetID with
      | Some amount =>
          <[AccountID accountUTXO :=
              <[assetID := uint64_add amount (Amount accountUTXO)]> balances]>
            accBalance
      | None =>
          <[AccountID accountUTXO :=
              <[assetID := Amount accountUTXO]> balances]> accBalance
      end
  | None =>
      <[AccountID accountUTXO := {[assetID := Amount accountUTXO]}]>
        accBalance
  end.

(** [accBalance] after the first loop. *)
Definition accumulate (accountUTXOs : list UTXO)
  : gmap string (gmap string Z) :=
  fold_left add_utxo accountUTXOs ∅.

(** [accBalance[account][asset]]: reading through a missing entry gives
    the zero value. *)
Definition balance_of (accBalance : gmap string (gmap string Z))
    (account asset : string) : Z :=
  match accBalance !! account with
  | Some balances =>
      match balances !! asset with
      | Some amount => amount
      | None => 0
      end
  | None => 0
  end.

(** [amount, ok := accBalance[account][asset]]: the amount recorded for
    an account and an asset, if there is one. *)
Definition entry_of (accBalance : gmap string (gmap string Z))
    (account asset : string) : option Z :=
  match accBalance !! account with
  | Some balances => balances !! asset
  | None => None
  end.

(** What is recorded for an account and an asset once one more of their
    outputs has been added: the amount itself the first time, the wrapped
    sum afterwards. *)
Definition tally_step (recorded : option Z) (amount : Z) : option Z :=
  match recorded with
  | Some sum => Some (uint64_add sum amount)
  | None => Some amount
  end.

(** The string [listBalances] appends for one account: its assets in
    sorted order with their amounts, encoded and wrapped by
    [fmt.Sprintf]. *)
Definition account_entry (accBalance : gmap string (gmap string Z))
    (account : string) : string :=
  let sortedAsset :=
    sort_Strings
      (match accBalance !! account with
       | Some balances => range_keys balances
       | None => []
       end) in
  let assetAmounts :=
    map (fun asset => (asset, balance_of accBalance account asset))
        sortedAsset in
  let balanceString := json_Marshal_assetAmounts assetAmounts in
  "{" ++ String dquote ("AccountID" ++ String dquote (":" ++
    String dquote (account ++ String dquote ("," ++
    String dquote ("Balances" ++ String dquote (":" ++
    String dquote (balanceString ++ String dquote "}"))))))).

(** The method [listBalances]; [accountUTXOs] is what
    [bcr.GetAccountUTXOs()] returned. *)
Definition listBalances (accountUTXOs : list UTXO) : list string :=
  let accBalance := accumulate accountUTXOs in
  let sortedAccount := sort_Strings (range_keys accBalance) in
  fold_left
    (fun response account =>
       (response ++ [account_entry accBalance account])%list)
    sortedAccount [].

(** The amounts of the outputs of one account in one asset. *)
Definition amounts_of (account asset : string) (accountUTXOs : list UTXO)
  : list Z :=
  Amount <$>
    filter (fun u => AccountID u = account
                     /\ Sprintf_x (AssetID u) = asset) accountUTXOs.

(** [json.Unmarshal(value, &accountUTXO)]: the struct after the call,
    which may depend on the struct before it, and the error message if
    any. *)
Variable json_Unmarshal_UTXO : string -> UTXO -> UTXO * option string.

(** The method [GetAccountUTXOs]; [entries] is what
    [IteratorPrefix(account.UTXOPreFix)] walks and [zero] the zero
    [account.UTXO].  One struct is reused for every entry; an entry that
    does not decode is logged and skipped. *)
Definition GetAccountUTXOs (zero : UTXO) (entries : list (string * string))
  : list UTXO :=
  snd (fold_left
         (fun '(accountUTXO, accountUTXOs) kv =>
            match json_Unmarshal_UTXO (snd kv) accountUTXO with
            | (accountUTXO', Some _) => (accountUTXO', accountUTXOs)
            | (accountUTXO', None) =>
                (accountUTXO', (accountUTXOs ++ [accountUTXO'])%list)
            end)
         entries (zero, [])).

End Balances.

Arguments AssetID {AssetIDType} _.
Arguments Amount {AssetIDType} _.
Arguments AccountID {AssetIDType} _.

Section Transactions.

(** The values [SUCCESS] and [FAIL] of the field [Status], declared
    outside these files. *)
Variable StatusType : Type.
Variable SUCCESS FAIL : StatusType.

(** [Response], with the fields [listTransactions] sets. *)
Record Response : Type := {
  Status : StatusType;
  Msg : string;
  Data : list string
}.

(** [json.Unmarshal(value, annotatedTx)]: the message of the error, or
    [None] when the value decodes. *)
Variable json_Unmarshal_AnnotatedTx : string -> option string.

(** [json.Marshal(response)] and the fallback [DefaultRawResponse]. *)
Variable json_Marshal_Response : Response -> string + string.
Variable DefaultRawResponse : string.

(** The loop of [listTransactions]: it stops at the first value that
    does not decode. *)
Fixpoint scan_transactions (response : Response)
    (annotatedTxs : list string) (entries : list (string * string))
  : Response * list string :=
  match entries with
  | [] => (response, annotatedTxs)
  | kv :: rest =>
      match json_Unmarshal_AnnotatedTx (snd kv) with
      | Some err =>
          ({| Status := FAIL; Msg := err; Data := Data response |},
           annotatedTxs)
      | None =>
          scan_transactions response (annotatedTxs ++ [snd kv])%list rest
      end
  end.

(** The response [listTransactions] builds before encoding it; [entries]
    is what [IteratorPrefix(query.TxPreFix)] walks. *)
Definition transactions_response (entries : list (string * string))
  : Response :=
  let '(response, annotatedTxs) :=
    scan_transactions {| Status := SUCCESS; Msg := ""; Data := [] |}
      [] entries in
  {| Status := Status response; Msg := Msg response; Data := annotatedTxs |}.

(** The method [listTransactions]. *)
Definition listTransactions (entries : list (string * string)) : string :=
  match json_Marshal_Response (transactions_response entries) with
  | inl rawResponse => rawResponse
  | inr _ => DefaultRawResponse
  end.

End Transactions.

Arguments Status {StatusType} _.
Arguments Msg {StatusType} _.
Arguments Data {StatusType} _.

End Query.

(** * Examples for the query handlers *)

Module QueryExample.

(** Asset identifiers are byte strings here, written by [%x] as hex. *)
Definition UTXO : Type := Query.UTXO (list byte).

Definition output (asset : list byte) (amount : Z) (account : string)
  : UTXO :=
  {| Query.AssetID := asset; Query.Amount := amount;
     Query.AccountID := account |}.

(** Three outputs: two of ["alice"] in one asset, whose amounts add up
    to 2^64 + 4, and one of ["bob"]. *)
Definition outputs : list UTXO :=
  [output [x0a] 5 "alice"; output [x0b] 7 "bob";
   output [x0a] (2 ^ 64 - 1) "alice"].

(** The same outputs in another order. *)
Definition outputs_reordered : list UTXO :=
  [output [x0b] 7 "bob"; output [x0a] (2 ^ 64 - 1) "alice";
   output [x0a] 5 "alice"].

(** The JSON array of the asset amounts. *)
Definition Marshal_assetAmounts (l : list (string * Z)) : string :=
  "[" ++ String.concat ","
           (map (fun '(asset, amount) =>
                   "{" ++ Reference.quoted "AssetID" ":" ++
                   Reference.quoted asset "," ++
                   Reference.quoted "Amount" ":" ++ Itoa amount ++ "}") l)
      ++ "]".

(** A stand-in decoder for values that name the asset identifier only,
    in hex: the asset identifier is set and the other fields keep what the
    struct held; on a value that is not hex the struct is left as it
    was. *)
Definition Unmarshal_UTXO (value : string) (u : UTXO)
  : UTXO * option string :=
  match hex_decode value with
  | Some asset => (output asset (Query.Amount u) (Query.AccountID u), None)
  | None => (u, Some "invalid character")
  end.

End QueryExample.

(** * Facts about the building blocks *)

(** ** The identifier pattern *)

Lemma class_match_source_spec (c : ascii) :
  Regexp.class_match validIDRegexp c = Regexp.class_match spec_id_pattern c.
Proof. destruct c as [[] [] [] [] [] [] [] []]; reflexivity. Qed.

Lemma all_chars_ext (p q : ascii -> bool) (s : string) :
  (forall c, p c = q c) -> Regexp.all_chars p s = Regexp.all_chars q s.
Proof. intros E. induction s as [|c r IH]; simpl; [reflexivity|]. now rewrite E, IH. Qed.

Lemma all_chars_app (p : ascii -> bool) (a b : string) :
  Regexp.all_chars p (a ++ b) = Regexp.all_chars p a && Regexp.all_chars p b.
Proof.
  induction a as [|c r IH]; simpl; [reflexivity|].
  now rewrite IH, andb_assoc.
Qed.

Lemma all_chars_weaken (p q : ascii -> bool) (s : string) :
  (forall c, p c = true -> q c = true) ->
  Regexp.all_chars p s = true -> Regexp.all_chars q s = true.
Proof.
  intros W. induction s as [|c r IH]; simpl; [easy|].
  rewrite !andb_true_iff. intros [H1 H2]. auto.
Qed.

Lemma MatchString_all_chars cls s :
  Regexp.MatchString cls s = true -> Regexp.all_chars (Regexp.class_match cls) s = true.
Proof. destruct s; simpl; [discriminate | easy]. Qed.

Lemma id_char_verbatim (c : ascii) :
  Regexp.class_match validIDRegexp c = true -> json_verbatim c = true.
Proof. destruct c as [[] [] [] [] [] [] [] []]; vm_compute; congruence. Qed.

(** ** Hex text *)

Lemma hex_of_byte_verbatim (b : byte) :
  Regexp.all_chars json_verbatim (hex_of_byte b) = true.
Proof. destruct b; reflexivity. Qed.

Lemma hex_encode_verbatim (bs : list byte) :
  Regexp.all_chars json_verbatim (hex_encode bs) = true.
Proof.
  induction bs as [|b r IH]; [reflexivity|].
  cbn [hex_encode].
  now rewrite all_chars_app, hex_of_byte_verbatim, IH.
Qed.

Lemma hex_decode_byte (b : byte) (r : string) :
  hex_decode (hex_of_byte b ++ r) =
  match hex_decode r with Some bs => Some (b :: bs) | None => None end.
Proof. destruct b; reflexivity. Qed.

Lemma hex_decode_encode (bs : list byte) : hex_decode (hex_encode bs) = Some bs.
Proof.
  induction bs as [|b r IH]; [reflexivity|].
  change (hex_encode (b :: r)) with (hex_of_byte b ++ hex_encode r).
  now rewrite hex_decode_byte, IH.
Qed.

Lemma hex_encode_inj (a b : list byte) : hex_encode a = hex_encode b -> a = b.
Proof.
  intros E. apply (f_equal hex_decode) in E.
  rewrite !hex_decode_encode in E. congruence.
Qed.

Lemma strip_prefix_app (p s : string) : strip_prefix p (p ++ s) = Some s.
Proof.
  induction p as [|c r IH]; simpl; [reflexivity|].
  now rewrite Ascii.eqb_refl.
Qed.

Lemma append_inv_head (p a b : string) : p ++ a = p ++ b -> a = b.
Proof. induction p as [|c r IH]; simpl; [easy|]. intros E. injection E. auto. Qed.

Lemma strings_Compare_eq (a b : string) :
  (strings_Compare a b =? 0) = true <-> a = b.
Proof.
  unfold strings_Compare. split.
  - intros H. apply String.compare_eq_iff.
    destruct (String.compare a b); [reflexivity | | ];
      vm_compute in H; discriminate H.
  - intros ->.
    pose proof (String.compare_antisym b b) as E.
    destruct (String.compare b b); [reflexivity | | ]; discriminate E.
Qed.

(** ** Decimal text *)

Lemma parse_digits_acc (d : Decimal.uint) (acc : positive) :
  parse_digits (Z.pos acc) (NilEmpty.string_of_uint d)
  = Some (Z.pos (Pos.of_uint_acc d acc)).
Proof.
  revert acc. induction d as [|d IH|d IH|d IH|d IH|d IH|d IH|d IH|d IH|d IH|d IH];
    intros acc; [reflexivity | ..];
    cbn [NilEmpty.string_of_uint parse_digits Pos.of_uint_acc];
    match goal with
    | |- context [digit_val ?c] =>
        let v := eval vm_compute in (digit_val c) in
        change (digit_val c) with v
    end; cbv iota beta; rewrite <- IH; f_equal; lia.
Qed.

Lemma parse_digits_uint (d : Decimal.uint) :
  parse_digits 0 (NilEmpty.string_of_uint d) = Some (Z.of_N (Pos.of_uint d)).
Proof.
  induction d as [|d IH|d IH|d IH|d IH|d IH|d IH|d IH|d IH|d IH|d IH];
    [reflexivity | exact IH | ..];
    cbn [NilEmpty.string_of_uint parse_digits Pos.of_uint];
    match goal with
    | |- context [digit_val ?c] =>
        let v := eval vm_compute in (digit_val c) in
        change (digit_val c) with v
    end; cbv iota beta; apply parse_digits_acc.
Qed.

Lemma parse_digits_pos (p : positive) :
  parse_digits 0 (NilEmpty.string_of_uint (Pos.to_uint p)) = Some (Z.pos p).
Proof. now rewrite parse_digits_uint, DecimalPos.Unsigned.of_to. Qed.

Lemma string_of_uint_head (d : Decimal.uint) :
  d <> Decimal.Nil ->
  exists c r, NilEmpty.string_of_uint d = String c r
              /\ Ascii.eqb c "-" = false /\ Ascii.eqb c "+" = false.
Proof. destruct d; [easy | ..]; intros _; cbn; eauto. Qed.

Lemma Atoi_Itoa (z : Z) : int_min <= z <= int_max -> Atoi (Itoa z) = Some z.
Proof.
  intros R.
  assert (Hr : in_int_range z = Some z).
  { unfold in_int_range. destruct (Z.leb_spec int_min z), (Z.leb_spec z int_max); (reflexivity || lia). }
  destruct z as [|p|p].
  - reflexivity.
  - unfold Itoa. cbn [Z.to_int NilZero.string_of_int].
    pose proof (DecimalPos.Unsigned.to_uint_nonnil p) as Hn.
    pose proof (parse_digits_pos p) as Hp.
    destruct (string_of_uint_head _ Hn) as (c & r & E & E1 & E2).
    unfold NilZero.string_of_uint.
    destruct (Pos.to_uint p) eqn:Ep; [easy | ..];
      rewrite E in *; unfold Atoi; rewrite E1, E2, Hp; exact Hr.
  - unfold Itoa. cbn [Z.to_int NilZero.string_of_int].
    pose proof (DecimalPos.Unsigned.to_uint_nonnil p) as Hn.
    pose proof (parse_digits_pos p) as Hp.
    destruct (string_of_uint_head _ Hn) as (c & r & E & E1 & E2).
    unfold NilZero.string_of_uint.
    destruct (Pos.to_uint p) eqn:Ep; [easy | ..];
      rewrite E in *; unfold Atoi; rewrite Ascii.eqb_refl, Hp; exact Hr.
Qed.

(** ** Buffers *)

Lemma copy_length (dst src : list byte) : length (copy dst src) = length dst.
Proof.
  unfold copy. rewrite length_app, length_firstn, length_skipn. lia.
Qed.

Lemma copy_same_length (dst src : list byte) :
  length src = length dst -> copy dst src = src.
Proof.
  intros E. unfold copy. rewrite E, Nat.min_id, <- E.
  rewrite firstn_all, skipn_all2 by lia. apply app_nil_r.
Qed.

Lemma skipn_repeat_sub {A : Type} (x : A) (n m : nat) :
  skipn n (repeat x m) = repeat x (m - n).
Proof.
  revert n. induction m as [|m IH]; intros [|n]; simpl; try reflexivity.
  apply IH.
Qed.

Lemma copy_zeros_frame32 (s : list byte) :
  copy (zeros (Z.to_nat tokenSize)) s = frame32 s.
Proof.
  change (Z.to_nat tokenSize) with 32%nat.
  unfold copy, frame32, zeros. rewrite repeat_length.
  destruct (Nat.le_ge_cases (length s) 32) as [L | L].
  - rewrite Nat.min_r by lia.
    rewrite !firstn_all2 by lia. f_equal.
    rewrite skipn_repeat_sub. reflexivity.
  - rewrite Nat.min_l by lia. f_equal.
    rewrite skipn_repeat_sub. f_equal. lia.
Qed.

Lemma frame32_length (s : list byte) : length (frame32 s) = 32%nat.
Proof. unfold frame32. rewrite length_app, length_firstn, repeat_length. lia. Qed.

Lemma frame32_short (s : list byte) :
  (length s <= 32)%nat -> frame32 s = (s ++ repeat x00 (32 - length s))%list.
Proof. intros L. unfold frame32. now rewrite firstn_all2 by lia. Qed.

Lemma frame32_long (s : list byte) :
  (32 <= length s)%nat -> frame32 s = firstn 32 s.
Proof.
  intros L. unfold frame32. replace (32 - length s)%nat with 0%nat by lia.
  apply app_nil_r.
Qed.

Lemma frame32_exact (s : list byte) : length s = 32%nat -> frame32 s = s.
Proof. intros E. rewrite frame32_long by lia. apply firstn_all2. lia. Qed.

Lemma frame32_idem (s : list byte) : frame32 (frame32 s) = frame32 s.
Proof. apply frame32_exact, frame32_length. Qed.

(** ** The scan of the store *)

Lemma collect_values_acc (it : list (string * string)) (acc : list string) :
  fold_left (fun tokens kv => (tokens ++ [snd kv])%list) it acc
  = (acc ++ map snd it)%list.
Proof.
  revert acc. induction it as [|kv r IH]; intros acc; simpl.
  - now rewrite app_nil_r.
  - rewrite IH, <- app_assoc. reflexivity.
Qed.

Lemma collect_values_map (it : list (string * string)) :
  collect_values it = map snd it.
Proof. unfold collect_values. apply collect_values_acc. Qed.

Lemma collect_values_length (db : gmap string string) :
  length (collect_values (DB.Iterator db)) = size db.
Proof.
  rewrite collect_values_map, length_map. unfold DB.Iterator.
  apply length_map_to_list.
Qed.

(** * Properties of the store *)

Section StoreFacts.

Variable Time : Type.
Variable Sum256 : list byte -> list byte.
Variable json_Marshal_Token : Token Time -> string + string.
Variable json_Unmarshal_Token : string -> Token Time + string.

Local Abbreviation Create := (Create Time Sum256 json_Marshal_Token).
Local Abbreviation Check := (Check Time Sum256 json_Unmarshal_Token).
Local Abbreviation record_of := (record_of Time Sum256).
Local Abbreviation contract :=
  (json_codec_contract Time json_Marshal_Token json_Unmarshal_Token).

Lemma valid_source_spec (id : string) :
  Regexp.MatchString validIDRegexp id = Regexp.MatchString spec_id_pattern id.
Proof.
  destruct id as [|c r]; [reflexivity|].
  unfold Regexp.MatchString. apply all_chars_ext, class_match_source_spec.
Qed.

Lemma rand_Read_full (rnd : RandRead) :
  rand_err rnd = None ->
  (32 <= length (rand_bytes rnd))%nat ->
  rand_Read rnd (zeros (Z.to_nat tokenSize))
  = (firstn 32 (rand_bytes rnd), tokenSize, None).
Proof.
  intros E L. unfold rand_Read, ReadFull_err.
  rewrite E, copy_zeros_frame32.
  rewrite frame32_long by exact L.
  change (Z.to_nat tokenSize) with 32%nat. unfold zeros.
  rewrite repeat_length, Nat.min_l by lia. reflexivity.
Qed.

(** A buffer left short comes with an error: the source's own, or the
    end of the source. *)
Lemma rand_Read_short (rnd : RandRead) :
  (length (rand_bytes rnd) < 32)%nat ->
  exists msg : string,
    snd (rand_Read rnd (zeros (Z.to_nat tokenSize))) = Some (ErrRand msg)
    /\ (forall own, rand_err rnd = Some own -> msg = own)
    /\ (rand_err rnd = None ->
        msg = if (length (rand_bytes rnd) =? 0)%nat
              then "EOF" else "unexpected EOF").
Proof.
  intros L. unfold rand_Read, ReadFull_err. cbn [snd].
  change (Z.to_nat tokenSize) with 32%nat. unfold zeros.
  rewrite repeat_length, Nat.min_r by lia.
  destruct (rand_err rnd) as [own|].
  - exists own. split; [reflexivity|]. split; [congruence | discriminate].
  - replace (length (rand_bytes rnd) <? 32)%nat with true
      by (symmetry; apply Nat.ltb_lt; exact L).
    eexists. split; [reflexivity|]. split; [discriminate | reflexivity].
Qed.

(** [Create] on a fresh valid identifier with a full read. *)
Lemma Create_fresh db rnd now id typ :
  Regexp.MatchString validIDRegexp id = true ->
  DB.Get db (json_Marshal_string id) = None ->
  rand_err rnd = None ->
  (32 <= length (rand_bytes rnd))%nat ->
  Create db rnd now id typ =
  let secret := firstn 32 (rand_bytes rnd) in
  match json_Marshal_Token (record_of id typ secret now) with
  | inr e => (None, Some (ErrJSON e), db)
  | inl value =>
      (Some (Sprintf_s_x id secret), None,
       DB.Set_ db (json_Marshal_string id) value)
  end.
Proof.
  intros V G E L. unfold Create.
  rewrite V, G, rand_Read_full by assumption. cbn [negb].
  rewrite bool_decide_eq_false_2 by (intros H; now apply H).
  rewrite Z.eqb_refl. reflexivity.
Qed.

Lemma Create_success_inv db rnd now id typ hexsec err db' :
  Create db rnd now id typ = (Some hexsec, err, db') ->
  Regexp.MatchString validIDRegexp id = true
  /\ DB.Get db (json_Marshal_string id) = None
  /\ rand_err rnd = None
  /\ (32 <= length (rand_bytes rnd))%nat
  /\ exists value : string,
       json_Marshal_Token (record_of id typ (firstn 32 (rand_bytes rnd)) now)
       = inl value
       /\ hexsec = Sprintf_s_x id (firstn 32 (rand_bytes rnd))
       /\ err = None
       /\ db' = DB.Set_ db (json_Marshal_string id) value.
Proof.
  intros H.
  destruct (Regexp.MatchString validIDRegexp id) eqn:V.
  2:{ unfold Create in H. rewrite V in H. discriminate H. }
  destruct (DB.Get db (json_Marshal_string id)) eqn:G.
  1:{ unfold Create in H. rewrite V, G in H. discriminate H. }
  destruct (rand_err rnd) eqn:E.
  1:{ unfold Create, rand_Read, ReadFull_err in H. rewrite V, G, E in H.
      cbn [negb] in H.
      rewrite bool_decide_eq_true_2 in H by discriminate.
      discriminate H. }
  destruct (Nat.le_gt_cases 32 (length (rand_bytes rnd))) as [L | L].
  2:{ destruct (rand_Read_short rnd L) as (msg & R & _).
      unfold Create in H. rewrite V, G in H. cbn [negb] in H.
      destruct (rand_Read rnd (zeros (Z.to_nat tokenSize)))
        as [[secret v] e].
      cbn [snd] in R. subst e.
      rewrite bool_decide_eq_true_2 in H by discriminate.
      discriminate H. }
  rewrite Create_fresh in H by assumption. cbv zeta in H.
  repeat split; try assumption.
  destruct (json_Marshal_Token _) as [value | e]; [| discriminate H].
  exists value. injection H as <- <- <-. auto.
Qed.

Lemma append_assoc (a b c : string) : (a ++ b) ++ c = a ++ (b ++ c).
Proof.
  induction a as [|x r IH]; [reflexivity|].
  change (String x ((r ++ b) ++ c) = String x (r ++ (b ++ c))).
  f_equal. exact IH.
Qed.

(** The issuance string gives the secret back. *)
Lemma issuance_decode (id : string) (secret : list byte) :
  exists hex : string,
    strip_prefix (id ++ ":") (Sprintf_s_x id secret) = Some hex
    /\ hex_decode hex = Some secret.
Proof.
  exists (hex_encode secret). split.
  - unfold Sprintf_s_x. rewrite <- append_assoc. apply strip_prefix_app.
  - apply hex_decode_encode.
Qed.

Lemma digest_verbatim (id : string) (bs : list byte) :
  Regexp.MatchString validIDRegexp id = true ->
  Regexp.all_chars json_verbatim (Sprintf_s_x id bs) = true.
Proof.
  intros V. unfold Sprintf_s_x. rewrite !all_chars_app, hex_encode_verbatim.
  rewrite (all_chars_weaken _ json_verbatim id id_char_verbatim
             (MatchString_all_chars _ _ V)).
  reflexivity.
Qed.

(** [Check] against a record that decodes: the answer is the comparison
    of the stored digest with the digest of the framed secret. *)
Lemma Check_found db id secret value tok :
  Regexp.MatchString validIDRegexp id = true ->
  DB.Get db (json_Marshal_string id) = Some value ->
  json_Unmarshal_Token value = inl tok ->
  Check db id secret =
  (bool_decide (TokenDigest tok = Sprintf_s_x id (Sum256 (frame32 secret))),
   None).
Proof.
  intros V G U. unfold Check. rewrite V, G, U, copy_zeros_frame32.
  cbn [negb]. case_bool_decide as D.
  - rewrite (proj2 (strings_Compare_eq _ _) D). reflexivity.
  - destruct (strings_Compare _ _ =? 0) eqn:C; [| reflexivity].
    apply strings_Compare_eq in C. contradiction.
Qed.

(** After a successful [Create], [Check] accepts the issued secret. *)
Lemma Check_after_Create db rnd now id typ hexsec err db' :
  contract ->
  Create db rnd now id typ = (Some hexsec, err, db') ->
  exists (hex : string) (secret : list byte),
    strip_prefix (id ++ ":") hexsec = Some hex
    /\ hex_decode hex = Some secret
    /\ length secret = 32%nat
    /\ Check db' id secret = (true, None).
Proof.
  intros K H.
  destruct (Create_success_inv _ _ _ _ _ _ _ _ H)
    as (V & G & E & L & value & M & -> & -> & ->).
  set (secret := firstn 32 (rand_bytes rnd)) in *.
  destruct (issuance_decode id secret) as (hex & P & D).
  assert (Ls : length secret = 32%nat)
    by (unfold secret; rewrite length_firstn; lia).
  exists hex, secret. repeat split; try assumption.
  destruct (K (record_of id typ secret now) value
              (digest_verbatim id (Sum256 secret) V) M) as (tok' & U & T).
  rewrite (Check_found _ _ _ value tok' V); [| apply lookup_insert_eq | exact U].
  rewrite frame32_exact by exact Ls.
  rewrite bool_decide_eq_true_2 by exact T. reflexivity.
Qed.

Lemma Create_duplicate db rnd now id typ value :
  Regexp.MatchString validIDRegexp id = true ->
  DB.Get db (json_Marshal_string id) = Some value ->
  Create db rnd now id typ = (None, Some ErrDuplicateID, db).
Proof. intros V G. unfold Create. now rewrite V, G. Qed.

Lemma Create_invalid db rnd now id typ :
  Regexp.MatchString validIDRegexp id = false ->
  Create db rnd now id typ = (None, Some ErrBadID, db).
Proof. intros V. unfold Create. now rewrite V. Qed.

Lemma Check_invalid db id secret :
  Regexp.MatchString validIDRegexp id = false ->
  Check db id secret = (false, Some ErrBadID).
Proof. intros V. unfold Check. now rewrite V. Qed.

Lemma Delete_invalid db id :
  Regexp.MatchString validIDRegexp id = false ->
  Delete db id = (Some ErrBadID, db).
Proof. intros V. unfold Delete. now rewrite V. Qed.

Lemma Delete_valid db id :
  Regexp.MatchString validIDRegexp id = true ->
  Delete db id = (None, DB.Delete db (json_Marshal_string id)).
Proof. intros V. unfold Delete. now rewrite V. Qed.

(** For an identifier the pattern accepts, none of the three
    operations answers [ErrBadID]. *)
Lemma Create_valid_not_BadID db rnd now id typ :
  Regexp.MatchString validIDRegexp id = true ->
  snd (fst (Create db rnd now id typ)) <> Some ErrBadID.
Proof.
  intros V. unfold Create, rand_Read, ReadFull_err. rewrite V. cbn [negb].
  destruct (DB.Get _ _); [discriminate|].
  destruct (bool_decide _ || _).
  - destruct (rand_err rnd); [discriminate|].
    destruct (_ <? _)%nat; discriminate.
  - destruct (json_Marshal_Token _); discriminate.
Qed.

Lemma Check_valid_not_BadID db id secret :
  Regexp.MatchString validIDRegexp id = true ->
  snd (Check db id secret) <> Some ErrBadID.
Proof.
  intros V. unfold Check. rewrite V. cbn [negb].
  destruct (DB.Get _ _); [| discriminate].
  destruct (json_Unmarshal_Token _); [| discriminate].
  destruct (_ =? 0); discriminate.
Qed.

(** A short read: [Create] hands back the error that comes with it and
    a nil pointer, and stores nothing. *)
Lemma Create_short_read db rnd now id typ :
  Regexp.MatchString validIDRegexp id = true ->
  DB.Get db (json_Marshal_string id) = None ->
  (length (rand_bytes rnd) < 32)%nat ->
  exists msg : string,
    Create db rnd now id typ = (None, Some (ErrRand msg), db)
    /\ (forall own, rand_err rnd = Some own -> msg = own)
    /\ (rand_err rnd = None ->
        msg = if (length (rand_bytes rnd) =? 0)%nat
              then "EOF" else "unexpected EOF").
Proof.
  intros V G L. destruct (rand_Read_short rnd L) as (msg & R & O & N).
  exists msg. split; [| split; assumption].
  unfold Create. rewrite V, G. cbn [negb].
  destruct (rand_Read rnd (zeros (Z.to_nat tokenSize))) as [[secret v] e].
  cbn [snd] in R. subst e.
  now rewrite bool_decide_eq_true_2 by discriminate.
Qed.

(** A read that reports an error: [Create] hands that error back and
    stores nothing. *)
Lemma Create_rand_error db rnd now id typ msg :
  Regexp.MatchString validIDRegexp id = true ->
  DB.Get db (json_Marshal_string id) = None ->
  rand_err rnd = Some msg ->
  Create db rnd now id typ = (None, Some (ErrRand msg), db).
Proof.
  intros V G E. unfold Create, rand_Read, ReadFull_err. rewrite V, G, E.
  cbn [negb].
  now rewrite bool_decide_eq_true_2 by discriminate.
Qed.

(** C1: for an identifier matching the pattern and a store without a
    record for it, when [Create] hands back an issuance string, the text
    after ["<id>:"] hex-decodes to 32 bytes, and [Check] on the store
    left by [Create], with those bytes as the secret, returns
    [(true, nil)]. *)
Theorem create_then_check_accepts db rnd now id typ hexsec err db' :
  contract ->
  Regexp.MatchString spec_id_pattern id = true ->
  DB.Get db (json_Marshal_string id) = None ->
  Create db rnd now id typ = (Some hexsec, err, db') ->
  exists (hex : string) (secret : list byte),
    strip_prefix (id ++ ":") hexsec = Some hex
    /\ hex_decode hex = Some secret
    /\ length secret = 32%nat
    /\ Check db' id secret = (true, None).
Proof. intros K _ _ H. exact (Check_after_Create _ _ _ _ _ _ _ _ K H). Qed.

(** C2: for an identifier matching the pattern whose record exists and
    holds the digest of a hash [h], and a 32-byte secret whose hash is
    not [h], [Check] returns [(false, nil)]: the value false and no
    error. *)
Theorem check_wrong_secret_is_false db id value tok h wrongSecret :
  Regexp.MatchString spec_id_pattern id = true ->
  DB.Get db (json_Marshal_string id) = Some value ->
  json_Unmarshal_Token value = inl tok ->
  TokenDigest tok = Sprintf_s_x id h ->
  length wrongSecret = 32%nat ->
  Sum256 wrongSecret <> h ->
  Check db id wrongSecret = (false, None).
Proof.
  intros V G U T L N. rewrite <- valid_source_spec in V.
  rewrite (Check_found _ _ _ _ _ V G U), frame32_exact by exact L.
  rewrite bool_decide_eq_false_2; [reflexivity|].
  rewrite T. unfold Sprintf_s_x. intros E.
  apply append_inv_head in E. apply (append_inv_head ":") in E.
  apply hex_encode_inj in E. congruence.
Qed.

(** C3: after a successful [Create] for an identifier matching the
    pattern, a second [Create] for the same identifier returns the
    DuplicateID error and the store it leaves is the store it found;
    [Check] with the secret of the first call still returns
    [(true, nil)]. *)
Theorem create_twice_is_duplicate
    db rnd1 now1 typ1 rnd2 now2 typ2 id hexsec err db1 :
  contract ->
  Regexp.MatchString spec_id_pattern id = true ->
  Create db rnd1 now1 id typ1 = (Some hexsec, err, db1) ->
  Create db1 rnd2 now2 id typ2 = (None, Some ErrDuplicateID, db1)
  /\ exists (hex : string) (secret : list byte),
       strip_prefix (id ++ ":") hexsec = Some hex
       /\ hex_decode hex = Some secret
       /\ Check (snd (Create db1 rnd2 now2 id typ2)) id secret = (true, None).
Proof.
  intros K V H. rewrite <- valid_source_spec in V.
  assert (D : Create db1 rnd2 now2 id typ2 = (None, Some ErrDuplicateID, db1)).
  { destruct (Create_success_inv _ _ _ _ _ _ _ _ H)
      as (_ & _ & _ & _ & value & _ & _ & _ & ->).
    apply (Create_duplicate _ _ _ _ _ value V), lookup_insert_eq. }
  split; [exact D|]. rewrite D. cbn [snd].
  destruct (Check_after_Create _ _ _ _ _ _ _ _ K H) as (hex & s & P & Hd & _ & C).
  eauto.
Qed.

(** C5: on a store without a record for an identifier matching the
    pattern, whenever the random source fills fewer than 32 bytes
    [Create] returns an error of the random source and no issuance
    string, and the store is left as it was: the error of the source when
    it reports one and, when it reports none of its own, the error that
    comes with every short read. *)
Theorem Create_short_read_is_error db rnd now id typ :
  Regexp.MatchString spec_id_pattern id = true ->
  DB.Get db (json_Marshal_string id) = None ->
  (length (rand_bytes rnd) < 32)%nat ->
  exists msg : string,
    Create db rnd now id typ = (None, Some (ErrRand msg), db)
    /\ (forall own, rand_err rnd = Some own -> msg = own).
Proof.
  intros V G L. rewrite <- valid_source_spec in V.
  destruct (Create_short_read db rnd now id typ V G L) as (msg & C & O & _).
  exists msg. split; assumption.
Qed.

(** C7: for an identifier matching the pattern, [Delete] returns a nil
    error on every store, with or without a record for the identifier
    (so never NoMatchID), and a [Create] for the identifier on the store
    [Delete] leaves succeeds: with a full read from the random source
    and a record that encodes, it returns the issuance string, no error,
    and stores the record. *)
Theorem delete_then_create_succeeds db id :
  Regexp.MatchString spec_id_pattern id = true ->
  Delete db id = (None, DB.Delete db (json_Marshal_string id))
  /\ fst (Delete db id) <> Some ErrNoMatchID
  /\ forall rnd now typ value,
       rand_err rnd = None ->
       (32 <= length (rand_bytes rnd))%nat ->
       json_Marshal_Token (record_of id typ (firstn 32 (rand_bytes rnd)) now)
       = inl value ->
       Create (snd (Delete db id)) rnd now id typ
       = (Some (Sprintf_s_x id (firstn 32 (rand_bytes rnd))), None,
          DB.Set_ (DB.Delete db (json_Marshal_string id))
                  (json_Marshal_string id) value).
Proof.
  intros V. rewrite <- valid_source_spec in V.
  rewrite (Delete_valid _ _ V). cbn [fst snd].
  repeat split; [discriminate|].
  intros rnd now typ value E L M.
  rewrite Create_fresh; try assumption.
  - cbv zeta. now rewrite M.
  - apply lookup_delete_eq.
Qed.

(** C8: [Create], [Check] and [Delete] answer InvalidID exactly when
    the identifier does not match the pattern of the design document
    (one or more ASCII letters, digits, underscores or hyphens); in
    that case the answer does not depend on the store and the store is
    left as it was; ["bad id!"] and the empty identifier are two such
    cases. *)
Theorem invalid_id_exactly_when_pattern_fails db rnd now id typ secret :
  (Regexp.MatchString spec_id_pattern id = false
     <-> snd (fst (Create db rnd now id typ)) = Some ErrBadID)
  /\ (Regexp.MatchString spec_id_pattern id = false
     <-> snd (Check db id secret) = Some ErrBadID)
  /\ (Regexp.MatchString spec_id_pattern id = false
     <-> fst (Delete db id) = Some ErrBadID)
  /\ (Regexp.MatchString spec_id_pattern id = false ->
        Create db rnd now id typ = (None, Some ErrBadID, db)
        /\ Check db id secret = (false, Some ErrBadID)
        /\ Delete db id = (Some ErrBadID, db))
  /\ Create db rnd now "bad id!" typ = (None, Some ErrBadID, db)
  /\ Create db rnd now "" typ = (None, Some ErrBadID, db).
Proof.
  rewrite <- valid_source_spec.
  destruct (Regexp.MatchString validIDRegexp id) eqn:V.
  - repeat split; try discriminate; try reflexivity; intros H; exfalso.
    + exact (Create_valid_not_BadID db rnd now id typ V H).
    + exact (Check_valid_not_BadID db id secret V H).
    + rewrite (Delete_valid _ _ V) in H. discriminate H.
  - rewrite (Create_invalid _ rnd now _ typ V), (Check_invalid _ _ secret V),
      (Delete_invalid _ _ V).
    repeat split; reflexivity.
Qed.

(** C9: [Check] gives an answer for a secret of every length, and the
    answer is computed from the secret framed to 32 bytes: on a
    well-formed identifier with a record that decodes, [Check] answers
    true exactly when the stored digest is the identifier, a colon and the
    hex form of the hash of the framed secret, and the other cases do not
    look at the secret.  The framed secret is the buffer the code copies
    the secret into: 32 bytes, the secret followed by zeros when it is
    shorter and its first 32 bytes when it is longer; so [Check] on a
    secret and on its framed form give the same answer. *)
Theorem check_frames_the_secret db id (s : list byte) :
  Check db id s
  = (if Regexp.MatchString validIDRegexp id then
       match DB.Get db (json_Marshal_string id) with
       | None => (false, Some ErrNoMatchID)
       | Some value =>
           match json_Unmarshal_Token value with
           | inr e => (false, Some (ErrJSON e))
           | inl tok =>
               (bool_decide
                  (TokenDigest tok = Sprintf_s_x id (Sum256 (frame32 s))),
                None)
           end
       end
     else (false, Some ErrBadID))
  /\ copy (zeros (Z.to_nat tokenSize)) s = frame32 s
  /\ frame32 s = (firstn 32 s ++ repeat x00 (32 - length s))%list
  /\ ((length s <= 32)%nat ->
      frame32 s = (s ++ repeat x00 (32 - length s))%list)
  /\ ((32 <= length s)%nat -> frame32 s = firstn 32 s)
  /\ length (frame32 s) = 32%nat
  /\ Check db id s = Check db id (frame32 s).
Proof.
  split.
  { destruct (Regexp.MatchString validIDRegexp id) eqn:V;
      [| now apply Check_invalid].
    destruct (DB.Get db (json_Marshal_string id)) as [value|] eqn:G.
    - destruct (json_Unmarshal_Token value) as [tok|e] eqn:U.
      + exact (Check_found db id s value tok V G U).
      + unfold Check. now rewrite V, G, U.
    - unfold Check. now rewrite V, G. }
  split; [apply copy_zeros_frame32|]. split; [reflexivity|].
  split; [apply frame32_short|]. split; [apply frame32_long|].
  split; [apply frame32_length|].
  unfold Check. now rewrite !copy_zeros_frame32, frame32_idem.
Qed.

(** C10: a [Create] that succeeds changes the store at the key that
    encodes the identifier and nowhere else: at every other key the
    lookup answers after the call what it answered before. *)
Theorem create_touches_only_its_key db rnd now id typ hexsec err db' k :
  Create db rnd now id typ = (Some hexsec, err, db') ->
  k <> json_Marshal_string id ->
  DB.Get db' k = DB.Get db k.
Proof.
  intros H N.
  destruct (Create_success_inv _ _ _ _ _ _ _ _ H)
    as (_ & _ & _ & _ & value & _ & _ & _ & ->).
  unfold DB.Get, DB.Set_. apply lookup_insert_ne. congruence.
Qed.

End StoreFacts.

(** ** The reference collaborators meet the codec contract *)

Lemma verbatim_not_quote (c : ascii) :
  json_verbatim c = true -> Ascii.eqb c dquote = false.
Proof.
  unfold json_verbatim. destruct (Ascii.eqb c dquote); [| reflexivity].
  rewrite andb_false_r. intros H. discriminate H.
Qed.

Lemma until_quote_app (s rest : string) :
  Regexp.all_chars json_verbatim s = true ->
  Reference.until_quote (s ++ String dquote rest) = Some (s, rest).
Proof.
  induction s as [|c r IH]; intros H.
  - reflexivity.
  - cbn [Regexp.all_chars] in H. apply andb_true_iff in H as [Hc Hr].
    change (String c r ++ String dquote rest)
      with (String c (r ++ String dquote rest)).
    cbn [Reference.until_quote].
    now rewrite (verbatim_not_quote _ Hc), (IH Hr).
Qed.

Lemma field_quoted (tag s rest : string) :
  Regexp.all_chars json_verbatim s = true ->
  Reference.field tag (tag ++ Reference.quoted s rest) = Some (s, rest).
Proof.
  intros H. unfold Reference.field, Reference.quoted.
  rewrite strip_prefix_app, Ascii.eqb_refl. now apply until_quote_app.
Qed.

Lemma Reference_codec_contract :
  json_codec_contract Reference.Time
    Reference.json_Marshal_Token Reference.json_Unmarshal_Token.
Proof.
  intros tok value _ M. unfold Reference.json_Marshal_Token in M.
  destruct (Regexp.all_chars json_verbatim (ID tok)) eqn:H1; [| discriminate M].
  destruct (Regexp.all_chars json_verbatim (TokenDigest tok)) eqn:H2;
    [| discriminate M].
  destruct (Regexp.all_chars json_verbatim (Type_ tok)) eqn:H3;
    [| discriminate M].
  destruct (Regexp.all_chars json_verbatim (Created tok)) eqn:H4;
    [| discriminate M].
  destruct (String.eqb (TokenDigest tok) ""); [discriminate M|].
  destruct (String.eqb (Type_ tok) ""); [discriminate M|].
  injection M as <-.
  exists tok. split; [| reflexivity].
  unfold Reference.json_Unmarshal_Token.
  rewrite !field_quoted by assumption.
  now destruct tok.
Qed.

(** * Properties of [List] *)

Lemma int_wrap_in_range (z : Z) : int_min <= z <= int_max -> int_wrap z = z.
Proof.
  unfold int_wrap, int_min, int_max. intros R.
  rewrite Z.mod_small by lia. lia.
Qed.

Lemma List_unfold db after limit defaultLimit :
  List db after limit defaultLimit =
  match (if String.eqb after "" then Some 0 else Atoi after) with
  | None => Returns ([], "", false, Some ErrInvalidAfter)
  | Some zafter =>
      let len := Z.of_nat (length (stored_values db)) in
      if len =? 0 then Returns ([], "", true, Some ErrNoAccessToken)
      else if len >? zafter then
        let end_ := if len >? int_add zafter limit
                    then int_add zafter limit else len in
        match slice (stored_values db) zafter end_ with
        | Panics => Panics
        | Returns items =>
            Returns (items, Itoa end_,
                     (len =? end_) || (len <? defaultLimit), None)
        end
      else Returns ([], "", false, Some ErrInvalidAfter)
  end.
Proof. unfold List, stored_values. now rewrite collect_values_map. Qed.

Lemma cursor_offset_Itoa (z : Z) :
  int_min <= z <= int_max -> cursor_offset (Itoa z) = Some z.
Proof.
  intros R. unfold cursor_offset.
  destruct (String.eqb (Itoa z) "") eqn:E; [| now apply Atoi_Itoa].
  apply String.eqb_eq in E. pose proof (Atoi_Itoa z R) as A.
  rewrite E in A. discriminate A.
Qed.

(** A cursor that does not parse: InvalidAfter, whatever the store. *)
Lemma List_unparsable db after limit defaultLimit :
  cursor_offset after = None ->
  List db after limit defaultLimit
  = Returns ([], "", false, Some ErrInvalidAfter).
Proof. intros P. rewrite List_unfold. unfold cursor_offset in P. now rewrite P. Qed.

(** An empty store: the store-empty error, for every cursor that parses. *)
Lemma List_empty_store db after limit defaultLimit z :
  cursor_offset after = Some z ->
  stored_values db = [] ->
  List db after limit defaultLimit
  = Returns ([], "", true, Some ErrNoAccessToken).
Proof.
  intros P E. rewrite List_unfold. unfold cursor_offset in P.
  now rewrite P, E.
Qed.

(** An offset at or past the end of a store that is not empty:
    InvalidAfter. *)
Lemma List_offset_past_end db after limit defaultLimit z :
  cursor_offset after = Some z ->
  stored_values db <> [] ->
  Z.of_nat (length (stored_values db)) <= z ->
  List db after limit defaultLimit
  = Returns ([], "", false, Some ErrInvalidAfter).
Proof.
  intros P N L. rewrite List_unfold. unfold cursor_offset in P. rewrite P.
  cbv zeta.
  destruct (stored_values db) as [|v r] eqn:E; [contradiction|].
  replace (Z.of_nat (length (v :: r)) =? 0) with false
    by (symmetry; apply Z.eqb_neq; cbn [length]; lia).
  replace (Z.of_nat (length (v :: r)) >? z) with false
    by (symmetry; rewrite Z.gtb_ltb; apply Z.ltb_ge; exact L).
  reflexivity.
Qed.

(** A page inside the store: the items from the offset up to
    [min(total, offset + limit)], that end as the next cursor, and the
    last-page flag. *)
Lemma List_page db after limit defaultLimit offset :
  cursor_offset after = Some offset ->
  0 <= offset < Z.of_nat (length (stored_values db)) ->
  0 <= limit ->
  offset + limit <= int_max ->
  let total := Z.of_nat (length (stored_values db)) in
  let end_ := Z.min total (offset + limit) in
  List db after limit defaultLimit
  = Returns (firstn (Z.to_nat (end_ - offset))
               (skipn (Z.to_nat offset) (stored_values db)),
             Itoa end_,
             (total =? end_) || (total <? defaultLimit),
             None).
Proof.
  intros P O L M total end_. rewrite List_unfold.
  unfold cursor_offset in P. rewrite P. cbv zeta. fold total.
  unfold int_add. rewrite int_wrap_in_range by (unfold int_min, int_max in *; lia).
  replace (total =? 0) with false by (symmetry; apply Z.eqb_neq; lia).
  replace (total >? offset) with true
    by (symmetry; rewrite Z.gtb_ltb; apply Z.ltb_lt; lia).
  assert (Ee : (if total >? offset + limit then offset + limit else total) = end_).
  { unfold end_. rewrite Z.gtb_ltb.
    destruct (Z.ltb_spec (offset + limit) total); lia. }
  rewrite Ee. unfold slice. fold total.
  replace ((0 <=? offset) && (offset <=? end_) && (end_ <=? total)) with true
    by (symmetry; rewrite !andb_true_iff, !Z.leb_le; unfold end_; lia).
  reflexivity.
Qed.

(** A negative offset on a store that is not empty: the slice
    expression panics. *)
Lemma List_negative_offset db after limit defaultLimit z :
  cursor_offset after = Some z ->
  z < 0 ->
  stored_values db <> [] ->
  List db after limit defaultLimit = Panics.
Proof.
  intros P Z0 N. rewrite List_unfold. unfold cursor_offset in P. rewrite P.
  cbv zeta.
  destruct (stored_values db) as [|v r] eqn:E; [contradiction|].
  replace (Z.of_nat (length (v :: r)) =? 0) with false
    by (symmetry; apply Z.eqb_neq; cbn [length]; lia).
  replace (Z.of_nat (length (v :: r)) >? z) with true
    by (symmetry; rewrite Z.gtb_ltb; apply Z.ltb_lt; lia).
  unfold slice. replace (0 <=? z) with false by (symmetry; apply Z.leb_gt; lia).
  reflexivity.
Qed.

(** A negative limit with an offset inside the store: the slice
    expression panics. *)
Lemma List_negative_limit db after limit defaultLimit offset :
  cursor_offset after = Some offset ->
  0 <= offset < Z.of_nat (length (stored_values db)) ->
  Z.of_nat (length (stored_values db)) <= int_max ->
  int_min <= limit < 0 ->
  List db after limit defaultLimit = Panics.
Proof.
  intros P O B L. rewrite List_unfold. unfold cursor_offset in P. rewrite P.
  cbv zeta. set (total := Z.of_nat (length (stored_values db))) in *.
  unfold int_add.
  rewrite int_wrap_in_range by (unfold int_min, int_max in *; lia).
  replace (total =? 0) with false by (symmetry; apply Z.eqb_neq; lia).
  replace (total >? offset) with true
    by (symmetry; rewrite Z.gtb_ltb; apply Z.ltb_lt; lia).
  replace (total >? offset + limit) with true
    by (symmetry; rewrite Z.gtb_ltb; apply Z.ltb_lt; lia).
  unfold slice.
  replace (offset <=? offset + limit) with false
    by (symmetry; apply Z.leb_gt; lia).
  now rewrite andb_false_r.
Qed.

(** * The store at work on the reference collaborators *)

Lemma create_then_check_accepts_witness :
  json_codec_contract Reference.Time
    Reference.json_Marshal_Token Reference.json_Unmarshal_Token
  /\ Regexp.MatchString spec_id_pattern "alice" = true
  /\ DB.Get ∅ (json_Marshal_string "alice") = None
  /\ Create Reference.Time Reference.Sum256 Reference.json_Marshal_Token
       ∅ Reference.rand_ok Reference.now0 "alice" "client"
     = (Some (Sprintf_s_x "alice" Reference.secret0), None, Reference.store1)
  /\ exists (hex : string) (secret : list byte),
       strip_prefix ("alice" ++ ":") (Sprintf_s_x "alice" Reference.secret0)
       = Some hex
       /\ hex_decode hex = Some secret
       /\ length secret = 32%nat
       /\ Check Reference.Time Reference.Sum256 Reference.json_Unmarshal_Token
            Reference.store1 "alice" secret = (true, None).
Proof.
  split; [exact Reference_codec_contract|].
  split; [reflexivity|]. split; [reflexivity|].
  split; [vm_compute; reflexivity|].
  apply (create_then_check_accepts Reference.Time Reference.Sum256
           Reference.json_Marshal_Token Reference.json_Unmarshal_Token
           ∅ Reference.rand_ok Reference.now0 "alice" "client"
           (Sprintf_s_x "alice" Reference.secret0) None Reference.store1
           Reference_codec_contract);
    [reflexivity | reflexivity | vm_compute; reflexivity].
Defined.

Lemma check_wrong_secret_is_false_witness :
  Regexp.MatchString spec_id_pattern "alice" = true
  /\ DB.Get Reference.store1 (json_Marshal_string "alice")
     = Some Reference.alice_value
  /\ Reference.json_Unmarshal_Token Reference.alice_value
     = inl Reference.alice_record
  /\ TokenDigest Reference.alice_record
     = Sprintf_s_x "alice" (Reference.Sum256 Reference.secret0)
  /\ length Reference.other_secret = 32%nat
  /\ Reference.Sum256 Reference.other_secret
     <> Reference.Sum256 Reference.secret0
  /\ Check Reference.Time Reference.Sum256 Reference.json_Unmarshal_Token
       Reference.store1 "alice" Reference.other_secret = (false, None).
Proof.
  assert (N : Reference.Sum256 Reference.other_secret
              <> Reference.Sum256 Reference.secret0)
    by (vm_compute; discriminate).
  split; [reflexivity|]. split; [vm_compute; reflexivity|].
  split; [vm_compute; reflexivity|]. split; [reflexivity|].
  split; [reflexivity|]. split; [exact N|].
  apply (check_wrong_secret_is_false Reference.Time Reference.Sum256
           Reference.json_Unmarshal_Token Reference.store1 "alice"
           Reference.alice_value Reference.alice_record
           (Reference.Sum256 Reference.secret0) Reference.other_secret);
    [reflexivity | vm_compute; reflexivity | vm_compute; reflexivity
    | reflexivity | reflexivity | exact N].
Defined.

Lemma create_twice_is_duplicate_witness :
  json_codec_contract Reference.Time
    Reference.json_Marshal_Token Reference.json_Unmarshal_Token
  /\ Regexp.MatchString spec_id_pattern "alice" = true
  /\ Create Reference.Time Reference.Sum256 Reference.json_Marshal_Token
       ∅ Reference.rand_ok Reference.now0 "alice" "client"
     = (Some (Sprintf_s_x "alice" Reference.secret0), None, Reference.store1)
  /\ Create Reference.Time Reference.Sum256 Reference.json_Marshal_Token
       Reference.store1 Reference.rand_ok Reference.now0 "alice" "network"
     = (None, Some ErrDuplicateID, Reference.store1)
  /\ exists (hex : string) (secret : list byte),
       strip_prefix ("alice" ++ ":") (Sprintf_s_x "alice" Reference.secret0)
       = Some hex
       /\ hex_decode hex = Some secret
       /\ Check Reference.Time Reference.Sum256 Reference.json_Unmarshal_Token
            (snd (Create Reference.Time Reference.Sum256
                    Reference.json_Marshal_Token Reference.store1
                    Reference.rand_ok Reference.now0 "alice" "network"))
            "alice" secret = (true, None).
Proof.
  split; [exact Reference_codec_contract|].
  split; [reflexivity|]. split; [vm_compute; reflexivity|].
  apply (create_twice_is_duplicate Reference.Time Reference.Sum256
           Reference.json_Marshal_Token Reference.json_Unmarshal_Token
           ∅ Reference.rand_ok Reference.now0 "client"
           Reference.rand_ok Reference.now0 "network" "alice"
           (Sprintf_s_x "alice" Reference.secret0) None Reference.store1
           Reference_codec_contract);
    [reflexivity | vm_compute; reflexivity].
Defined.

Lemma delete_then_create_succeeds_witness :
  Regexp.MatchString spec_id_pattern "alice" = true
  /\ Delete Reference.store1 "alice" = (None, ∅)
  /\ Delete ∅ "alice" = (None, ∅)
  /\ Create Reference.Time Reference.Sum256 Reference.json_Marshal_Token
       (snd (Delete ∅ "alice")) Reference.rand_ok Reference.now0
       "alice" "client"
     = (Some (Sprintf_s_x "alice" Reference.secret0), None, Reference.store1).
Proof.
  pose proof (delete_then_create_succeeds Reference.Time Reference.Sum256
                Reference.json_Marshal_Token ∅ "alice" eq_refl)
    as (D & _ & C).
  split; [reflexivity|]. split; [vm_compute; reflexivity|].
  split; [vm_compute; reflexivity|].
  rewrite (C Reference.rand_ok Reference.now0 "client" Reference.alice_value
             eq_refl);
    [vm_compute; reflexivity | vm_compute; lia | vm_compute; reflexivity].
Defined.

Lemma create_touches_only_its_key_witness :
  Create Reference.Time Reference.Sum256 Reference.json_Marshal_Token
    Reference.store1 Reference.rand_ok Reference.now0 "bob" "client"
  = (Some (Sprintf_s_x "bob" Reference.secret0), None,
     DB.Set_ Reference.store1 (json_Marshal_string "bob")
       (match Reference.json_Marshal_Token
                (record_of Reference.Time Reference.Sum256 "bob" "client"
                   Reference.secret0 Reference.now0)
        with inl v => v | inr _ => EmptyString end))
  /\ json_Marshal_string "alice" <> json_Marshal_string "bob"
  /\ DB.Get (DB.Set_ Reference.store1 (json_Marshal_string "bob")
       (match Reference.json_Marshal_Token
                (record_of Reference.Time Reference.Sum256 "bob" "client"
                   Reference.secret0 Reference.now0)
        with inl v => v | inr _ => EmptyString end))
       (json_Marshal_string "alice")
     = DB.Get Reference.store1 (json_Marshal_string "alice").
Proof.
  assert (N : json_Marshal_string "alice" <> json_Marshal_string "bob")
    by (vm_compute; discriminate).
  split; [vm_compute; reflexivity|]. split; [exact N|].
  apply (create_touches_only_its_key Reference.Time Reference.Sum256
           Reference.json_Marshal_Token Reference.store1 Reference.rand_ok
           Reference.now0 "bob" "client"
           (Sprintf_s_x "bob" Reference.secret0) None);
    [vm_compute; reflexivity | exact N].
Defined.

Lemma Create_short_read_is_error_witness :
  Regexp.MatchString spec_id_pattern "alice" = true
  /\ DB.Get ∅ (json_Marshal_string "alice") = None
  /\ (length (rand_bytes Reference.rand_short) < 32)%nat
  /\ rand_err Reference.rand_short = None
  /\ Create Reference.Time Reference.Sum256 Reference.json_Marshal_Token
       ∅ Reference.rand_short Reference.now0 "alice" "client"
     = (None, Some (ErrRand "unexpected EOF"), ∅)
  /\ exists msg : string,
       Create Reference.Time Reference.Sum256 Reference.json_Marshal_Token
         ∅ Reference.rand_short Reference.now0 "alice" "client"
       = (None, Some (ErrRand msg), ∅)
       /\ (forall own, rand_err Reference.rand_short = Some own -> msg = own).
Proof.
  assert (L : (length (rand_bytes Reference.rand_short) < 32)%nat)
    by (vm_compute; lia).
  split; [reflexivity|]. split; [reflexivity|]. split; [exact L|].
  split; [reflexivity|]. split; [vm_compute; reflexivity|].
  apply (Create_short_read_is_error Reference.Time Reference.Sum256
           Reference.json_Marshal_Token ∅ Reference.rand_short
           Reference.now0 "alice" "client");
    [reflexivity | reflexivity | exact L].
Defined.

(** * Where the code departs from the design document *)

(** C4: on a store holding one record, [List] with the cursor ["-1"]
    panics in the slice expression; the design document asks for the
    InvalidAfter error. *)
Theorem List_negative_after_panics :
  List Reference.store1 "-1" 10 defGenericPageSize = Panics.
Proof. vm_compute. reflexivity. Qed.

(** C6: on a store holding one record, [List] from offset 0 with the
    limit -1 panics in the slice expression instead of returning a page,
    a cursor and a last-page flag. *)
Theorem List_negative_limit_panics :
  List Reference.store1 "0" (-1) defGenericPageSize = Panics.
Proof. vm_compute. reflexivity. Qed.

(** * Further properties of the store *)

Lemma string_length_app (a b : string) :
  String.length (a ++ b) = (String.length a + String.length b)%nat.
Proof.
  induction a as [|x a IH]; [reflexivity|].
  change (S (String.length (a ++ b)) = S (String.length a + String.length b)).
  now rewrite IH.
Qed.

Lemma append_inv_tail (a b s : string) : a ++ s = b ++ s -> a = b.
Proof.
  intros E.
  assert (L : String.length a = String.length b).
  { apply (f_equal String.length) in E.
    rewrite !string_length_app in E. lia. }
  revert b E L. induction a as [|x a IH]; intros [|y b] E L;
    try discriminate L; [reflexivity|].
  change (String x (a ++ s) = String y (b ++ s)) in E.
  injection E as -> E. f_equal. apply IH; [exact E|].
  cbn [String.length] in L. lia.
Qed.

(** Two identifiers never share a key. *)
Lemma json_Marshal_string_inj (a b : string) :
  json_Marshal_string a = json_Marshal_string b -> a = b.
Proof.
  unfold json_Marshal_string. intros E. injection E as E.
  exact (append_inv_tail _ _ _ E).
Qed.

Lemma hex_of_byte_lower (b : byte) :
  Regexp.all_chars is_lower_hex (hex_of_byte b) = true.
Proof. destruct b; reflexivity. Qed.

Lemma hex_encode_lower (bs : list byte) :
  Regexp.all_chars is_lower_hex (hex_encode bs) = true.
Proof.
  induction bs as [|b r IH]; [reflexivity|].
  cbn [hex_encode]. now rewrite all_chars_app, hex_of_byte_lower, IH.
Qed.

Lemma hex_encode_length (bs : list byte) :
  String.length (hex_encode bs) = (2 * length bs)%nat.
Proof.
  induction bs as [|b r IH]; [reflexivity|].
  cbn [hex_encode]. rewrite string_length_app, IH.
  change (String.length (hex_of_byte b)) with 2%nat. cbn [length]. lia.
Qed.

Section StoreMore.

Variable Time : Type.
Variable Sum256 : list byte -> list byte.
Variable json_Marshal_Token : Token Time -> string + string.
Variable json_Unmarshal_Token : string -> Token Time + string.

Local Abbreviation Create := (Create Time Sum256 json_Marshal_Token).
Local Abbreviation Check := (Check Time Sum256 json_Unmarshal_Token).
Local Abbreviation record_of := (record_of Time Sum256).
Local Abbreviation contract :=
  (json_codec_contract Time json_Marshal_Token json_Unmarshal_Token).

(** [Check] reads the store at one key only. *)
Lemma Check_same_lookup db1 db2 id secret :
  DB.Get db1 (json_Marshal_string id) = DB.Get db2 (json_Marshal_string id) ->
  Check db1 id secret = Check db2 id secret.
Proof. intros E. unfold Check. now rewrite E. Qed.

(** X1: [Check] answers true only when the identifier is well formed, a
    record is stored under it, the record decodes, and its digest is the
    identifier, a colon and the hex form of the hash of the secret framed
    to 32 bytes; the error is then nil. *)
Theorem Check_true_only_on_matching_digest db id secret e :
  Check db id secret = (true, e) ->
  Regexp.MatchString validIDRegexp id = true
  /\ e = None
  /\ exists (value : string) (tok : Token Time),
       DB.Get db (json_Marshal_string id) = Some value
       /\ json_Unmarshal_Token value = inl tok
       /\ TokenDigest tok = Sprintf_s_x id (Sum256 (frame32 secret)).
Proof.
  intros H.
  destruct (Regexp.MatchString validIDRegexp id) eqn:V.
  2:{ rewrite (Check_invalid Time Sum256 json_Unmarshal_Token db id secret V)
        in H. discriminate H. }
  destruct (DB.Get db (json_Marshal_string id)) as [value|] eqn:G.
  2:{ unfold Check in H. rewrite V, G in H. discriminate H. }
  destruct (json_Unmarshal_Token value) as [tok|m] eqn:U.
  2:{ unfold Check in H. rewrite V, G, U in H. discriminate H. }
  rewrite (Check_found Time Sum256 json_Unmarshal_Token db id secret value tok
             V G U) in H.
  injection H as D <-. apply bool_decide_eq_true_1 in D.
  repeat split. eauto.
Qed.

(** X2: after a successful [Create], [Check] never fails on that
    identifier: for a secret of any length the error is nil, and the
    answer is true exactly when the hash of the framed secret equals the
    hash of the 32 bytes the random source delivered. *)
Theorem Check_after_Create_accepts_exactly_the_hash
    db rnd now id typ hexsec err db' (s : list byte) :
  contract ->
  Create db rnd now id typ = (Some hexsec, err, db') ->
  snd (Check db' id s) = None
  /\ (fst (Check db' id s) = true
      <-> Sum256 (frame32 s) = Sum256 (firstn 32 (rand_bytes rnd))).
Proof.
  intros K H.
  apply Create_success_inv in H
    as (V & G & E & L & value & M & -> & -> & ->).
  destruct (K (record_of id typ (firstn 32 (rand_bytes rnd)) now) value
              (digest_verbatim id _ V) M) as (tok' & U & T).
  rewrite (Check_found Time Sum256 json_Unmarshal_Token _ id s value tok' V);
    [| apply lookup_insert_eq | exact U].
  cbn [fst snd]. split; [reflexivity|].
  rewrite bool_decide_eq_true, T. unfold record_of. cbn [TokenDigest].
  unfold Sprintf_s_x. split.
  - intros Q. apply append_inv_head in Q. apply (append_inv_head ":") in Q.
    apply hex_encode_inj in Q. congruence.
  - intros ->. reflexivity.
Qed.

(** X3: once [Delete] has run for a well-formed identifier, [Check] on
    it answers false with the NoMatchID error, whatever the secret and
    whatever the store held before. *)
Theorem Check_after_Delete_is_NoMatchID db id (secret : list byte) :
  Regexp.MatchString validIDRegexp id = true ->
  Check (snd (Delete db id)) id secret = (false, Some ErrNoMatchID).
Proof.
  intros V. rewrite (Delete_valid _ _ V). cbn [snd].
  unfold Check, DB.Get, DB.Delete. now rewrite V, lookup_delete_eq.
Qed.

Lemma Create_results db rnd now id typ :
  (fst (fst (Create db rnd now id typ)) <> None ->
   snd (fst (Create db rnd now id typ)) = None)
  /\ (fst (fst (Create db rnd now id typ)) = None ->
      snd (Create db rnd now id typ) = db).
Proof.
  unfold Create, rand_Read.
  destruct (Regexp.MatchString validIDRegexp id); cbn [negb];
    [| split; [intros N; now contradiction N | reflexivity]].
  destruct (DB.Get _ _);
    [split; [intros N; now contradiction N | reflexivity] |].
  destruct (bool_decide _ || _);
    [split; [intros N; now contradiction N | reflexivity] |].
  destruct (json_Marshal_Token _);
    [split; [reflexivity | discriminate]
    | split; [intros N; now contradiction N | reflexivity]].
Qed.

(** X4: whenever [Create] hands back no issuance string, whatever the
    reason, the store is exactly the store it was given. *)
Theorem Create_failure_leaves_store db rnd now id typ e db' :
  Create db rnd now id typ = (None, e, db') -> db' = db.
Proof.
  intros H. pose proof (proj2 (Create_results db rnd now id typ)) as F.
  rewrite H in F. exact (F eq_refl).
Qed.

(** X5: [Delete] undoes [Create]: after a successful [Create] for an
    identifier, [Delete] for it returns a nil error and the store is again
    the store [Create] was given. *)
Theorem Delete_undoes_Create db rnd now id typ hexsec err db' :
  Create db rnd now id typ = (Some hexsec, err, db') ->
  Delete db' id = (None, db).
Proof.
  intros H.
  apply Create_success_inv in H
    as (V & G & _ & _ & value & _ & _ & _ & ->).
  rewrite (Delete_valid _ _ V). f_equal.
  unfold DB.Delete, DB.Set_. now apply delete_insert_id.
Qed.

(** X6: what [Check] answers for one identifier does not change when
    [Create] or [Delete] runs for a different identifier. *)
Theorem Check_unaffected_by_other_id db rnd now id id' typ (secret : list byte) :
  id <> id' ->
  Check (snd (Create db rnd now id' typ)) id secret = Check db id secret
  /\ Check (snd (Delete db id')) id secret = Check db id secret.
Proof.
  intros N.
  assert (Nk : json_Marshal_string id' <> json_Marshal_string id)
    by (intros E; apply N; symmetry; now apply json_Marshal_string_inj).
  split; apply Check_same_lookup.
  - destruct (Create db rnd now id' typ) as [[[hexsec|] e] db1] eqn:C.
    + cbn [snd].
      apply Create_success_inv in C as (_ & _ & _ & _ & value & _ & _ & _ & ->).
      unfold DB.Get, DB.Set_. now apply lookup_insert_ne.
    + pose proof (proj2 (Create_results db rnd now id' typ)) as F.
      rewrite C in F. cbn [fst snd] in *. now rewrite F.
  - unfold Delete. destruct (Regexp.MatchString validIDRegexp id'); cbn [negb snd];
      [| reflexivity].
    unfold DB.Get, DB.Delete. now apply lookup_delete_ne.
Qed.

(** X7: a successful [Create] adds exactly one record: the encoding of
    the new record is stored under the key of the identifier, and what
    [List] scans afterwards is, up to order, that encoding next to what
    was there before. *)
Theorem Create_adds_one_record db rnd now id typ hexsec err db' :
  Create db rnd now id typ = (Some hexsec, err, db') ->
  exists value : string,
    json_Marshal_Token (record_of id typ (firstn 32 (rand_bytes rnd)) now)
    = inl value
    /\ DB.Get db' (json_Marshal_string id) = Some value
    /\ stored_values db' ≡ₚ value :: stored_values db.
Proof.
  intros H.
  apply Create_success_inv in H as (V & G & _ & _ & value & M & _ & _ & ->).
  exists value. split; [exact M|]. split; [apply lookup_insert_eq|].
  unfold stored_values, DB.Iterator, DB.Set_.
  rewrite (map_to_list_insert db _ value G). reflexivity.
Qed.

(** X8: the issuance string of a successful [Create] is the identifier,
    a colon, and exactly 64 characters, each a digit or a letter from a
    to f. *)
Theorem Create_issuance_format db rnd now id typ hexsec err db' :
  Create db rnd now id typ = (Some hexsec, err, db') ->
  exists hex : string,
    hexsec = id ++ ":" ++ hex
    /\ String.length hex = 64%nat
    /\ Regexp.all_chars is_lower_hex hex = true.
Proof.
  intros H.
  apply Create_success_inv in H as (_ & _ & _ & L & _ & _ & -> & _ & _).
  exists (hex_encode (firstn 32 (rand_bytes rnd))).
  split; [reflexivity|]. split; [| apply hex_encode_lower].
  rewrite hex_encode_length, length_firstn. lia.
Qed.


End StoreMore.

(** X11: [Delete] is idempotent, and it leaves every key other than the
    key of its identifier as it was. *)
Theorem Delete_idempotent db id k :
  Delete (snd (Delete db id)) id = Delete db id
  /\ (k <> json_Marshal_string id ->
      DB.Get (snd (Delete db id)) k = DB.Get db k).
Proof.
  unfold Delete. destruct (Regexp.MatchString validIDRegexp id) eqn:V;
    cbn [negb snd]; rewrite ?V; cbn [negb].
  - split.
    + f_equal. unfold DB.Delete. apply map_eq. intros j.
      destruct (decide (json_Marshal_string id = j)) as [<- | N].
      * now rewrite !lookup_delete_eq.
      * now rewrite !lookup_delete_ne.
    + intros N. unfold DB.Get, DB.Delete. now apply lookup_delete_ne.
  - split; reflexivity.
Qed.

(** * Further properties of [List] *)

Lemma firstn_two_pages {A : Type} (l : list A) (a b : nat) :
  (firstn a l ++ firstn b (skipn a l))%list = firstn (a + b) l.
Proof.
  revert l. induction a as [|a IH]; intros l; [reflexivity|].
  destruct l as [|x l]; cbn [firstn skipn Nat.add].
  - now rewrite firstn_nil.
  - cbn [app]. f_equal. apply IH.
Qed.

Lemma skipn_skipn_add {A : Type} (l : list A) (a b : nat) :
  skipn b (skipn a l) = skipn (a + b) l.
Proof.
  revert l. induction a as [|a IH]; intros l; [reflexivity|].
  destruct l as [|x l]; cbn [skipn Nat.add]; [now rewrite skipn_nil | apply IH].
Qed.

Lemma Itoa_not_empty_cursor (z : Z) :
  0 <= z <= int_max -> cursor_offset (Itoa z) = Some z.
Proof. intros R. apply cursor_offset_Itoa. unfold int_min, int_max in *. lia. Qed.

(** X12: a page inside the store.  With a cursor that parses to an offset
    inside the store, a non-negative limit and [offset + limit] inside
    [int], [List] returns no error, the items are the first [limit] values
    from the offset on (fewer only when the store ends), the next cursor
    parses to the offset just after the last item, and the page is flagged
    last exactly when it reaches the end of the store or the store is
    smaller than [defaultLimit]. *)
Theorem List_serves_page db after limit defaultLimit offset :
  cursor_offset after = Some offset ->
  0 <= offset < Z.of_nat (length (stored_values db)) ->
  0 <= limit ->
  offset + limit <= int_max ->
  exists (items : list string) (next : string) (last : bool),
    List db after limit defaultLimit = Returns (items, next, last, None)
    /\ items = firstn (Z.to_nat limit)
                 (skipn (Z.to_nat offset) (stored_values db))
    /\ Z.of_nat (length items)
       = Z.min limit (Z.of_nat (length (stored_values db)) - offset)
    /\ cursor_offset next = Some (offset + Z.of_nat (length items))
    /\ (last = true
        <-> offset + Z.of_nat (length items)
            = Z.of_nat (length (stored_values db))
            \/ Z.of_nat (length (stored_values db)) < defaultLimit).
Proof.
  intros P O L M. pose proof (List_page db after limit defaultLimit offset P O L M) as H.
  cbv zeta in H. set (total := Z.of_nat (length (stored_values db))) in *.
  set (end_ := Z.min total (offset + limit)) in *.
  set (items := firstn (Z.to_nat limit) (skipn (Z.to_nat offset) (stored_values db))).
  assert (Ei : firstn (Z.to_nat (end_ - offset))
                 (skipn (Z.to_nat offset) (stored_values db)) = items).
  { unfold items, end_. destruct (Z.le_ge_cases total (offset + limit)) as [C | C].
    - rewrite Z.min_l by exact C.
      rewrite !firstn_all2; [reflexivity | |]; rewrite length_skipn; unfold total in *; lia.
    - rewrite Z.min_r by lia. f_equal. lia. }
  assert (Li : Z.of_nat (length items) = Z.min limit (total - offset)).
  { unfold items. rewrite length_firstn, length_skipn. unfold total. lia. }
  assert (Ee : offset + Z.of_nat (length items) = end_)
    by (rewrite Li; unfold end_; lia).
  exists items, (Itoa end_), ((total =? end_) || (total <? defaultLimit)).
  split; [now rewrite H, Ei|]. split; [reflexivity|]. split; [exact Li|].
  split.
  - rewrite Ee. apply Itoa_not_empty_cursor. unfold end_. lia.
  - rewrite Ee, orb_true_iff, Z.eqb_eq, Z.ltb_lt. intuition lia.
Qed.

(** X13: two pages in a row are one longer page.  When the first page
    ends inside the store, [List] called with the cursor it returned and a
    second limit gives the items that follow, and the two item lists
    together, with the cursor and flag of the second call, are what a
    single call with the sum of the limits returns. *)
Theorem List_pages_compose db after limit1 limit2 defaultLimit offset :
  cursor_offset after = Some offset ->
  0 <= offset ->
  0 <= limit1 ->
  0 <= limit2 ->
  offset + limit1 < Z.of_nat (length (stored_values db)) ->
  offset + limit1 + limit2 <= int_max ->
  exists (items1 items2 : list string) (next1 next2 : string)
         (last1 last2 : bool),
    List db after limit1 defaultLimit = Returns (items1, next1, last1, None)
    /\ List db next1 limit2 defaultLimit
       = Returns (items2, next2, last2, None)
    /\ List db after (limit1 + limit2) defaultLimit
       = Returns ((items1 ++ items2)%list, next2, last2, None).
Proof.
  intros P O L1 L2 I M.
  set (total := Z.of_nat (length (stored_values db))) in *.
  assert (E1 : Z.min total (offset + limit1) = offset + limit1) by lia.
  pose proof (List_page db after limit1 defaultLimit offset P) as H1.
  cbv zeta in H1. fold total in H1. rewrite E1 in H1.
  specialize (H1 ltac:(lia) L1 ltac:(lia)).
  pose proof (List_page db (Itoa (offset + limit1)) limit2 defaultLimit
                (offset + limit1)
                (Itoa_not_empty_cursor (offset + limit1) ltac:(lia))) as H2.
  cbv zeta in H2. fold total in H2.
  specialize (H2 ltac:(lia) L2 ltac:(lia)).
  pose proof (List_page db after (limit1 + limit2) defaultLimit offset P) as H3.
  cbv zeta in H3. fold total in H3.
  specialize (H3 ltac:(lia) ltac:(lia) ltac:(lia)).
  do 6 eexists. split; [exact H1|]. split; [exact H2|].
  rewrite H3. replace (offset + limit1 + limit2) with (offset + (limit1 + limit2)) by lia.
  set (e := Z.min total (offset + (limit1 + limit2))).
  do 3 f_equal.
  replace (offset + limit1 - offset) with limit1 by lia.
  replace (Z.to_nat (offset + limit1)) with (Z.to_nat offset + Z.to_nat limit1)%nat by lia.
  rewrite <- skipn_skipn_add, firstn_two_pages.
  replace (Z.to_nat limit1 + Z.to_nat (e - (offset + limit1)))%nat
    with (Z.to_nat (e - offset)) by (unfold e; lia).
  reflexivity.
Qed.

(** X14: the cursor of the final page is out of range.  When a page
    reaches the end of the store, it is flagged last and the cursor it
    returns makes every further call fail with InvalidAfter. *)
Theorem List_cursor_after_final_page_rejected
    db after limit defaultLimit offset limit' defaultLimit' :
  cursor_offset after = Some offset ->
  0 <= offset < Z.of_nat (length (stored_values db)) ->
  Z.of_nat (length (stored_values db)) <= offset + limit ->
  offset + limit <= int_max ->
  exists (items : list string) (next : string),
    List db after limit defaultLimit = Returns (items, next, true, None)
    /\ List db next limit' defaultLimit'
       = Returns ([], "", false, Some ErrInvalidAfter).
Proof.
  intros P O R M.
  set (total := Z.of_nat (length (stored_values db))) in *.
  pose proof (List_page db after limit defaultLimit offset P O ltac:(lia) M) as H.
  cbv zeta in H. fold total in H.
  rewrite (Z.min_l total) in H by lia. rewrite Z.eqb_refl in H. cbn [orb] in H.
  do 2 eexists. split; [exact H|].
  apply (List_offset_past_end db (Itoa total) limit' defaultLimit' total).
  - apply Itoa_not_empty_cursor. lia.
  - intros E. unfold total in O. rewrite E in O. cbn [length] in O. lia.
  - reflexivity.
Qed.

(** X15: the last-page flag can be set while records remain.  When the
    store holds fewer records than [defaultLimit], a page that ends inside
    the store is still flagged last, although the cursor it returns leads
    to a further page that is not empty. *)
Theorem List_flags_last_while_records_remain
    db after limit defaultLimit offset :
  cursor_offset after = Some offset ->
  0 <= offset ->
  0 <= limit ->
  offset + limit < Z.of_nat (length (stored_values db)) ->
  Z.of_nat (length (stored_values db)) < defaultLimit ->
  Z.of_nat (length (stored_values db)) <= int_max ->
  exists (items items' : list string) (next next' : string) (last' : bool),
    List db after limit defaultLimit = Returns (items, next, true, None)
    /\ List db next 1 defaultLimit = Returns (items', next', last', None)
    /\ length items' = 1%nat.
Proof.
  intros P O L I D B.
  set (total := Z.of_nat (length (stored_values db))) in *.
  pose proof (List_page db after limit defaultLimit offset P) as H1.
  cbv zeta in H1. fold total in H1.
  specialize (H1 ltac:(lia) L ltac:(lia)).
  rewrite (Z.min_r total) in H1 by lia.
  replace (total <? defaultLimit) with true in H1
    by (symmetry; apply Z.ltb_lt; exact D).
  rewrite orb_true_r in H1.
  pose proof (List_page db (Itoa (offset + limit)) 1 defaultLimit
                (offset + limit)
                (Itoa_not_empty_cursor (offset + limit) ltac:(lia))) as H2.
  cbv zeta in H2. fold total in H2.
  specialize (H2 ltac:(lia) ltac:(lia) ltac:(lia)).
  do 5 eexists. split; [exact H1|]. split; [exact H2|].
  rewrite length_firstn, length_skipn. fold total. unfold total. lia.
Qed.

(** X16: [List] never returns items together with an error.  Whenever
    the error is not nil, the item list and the cursor are empty, and the
    error is InvalidAfter with the flag false or the store-empty error
    with the flag true. *)
Theorem List_error_has_no_items db after limit defaultLimit items next last e :
  List db after limit defaultLimit = Returns (items, next, last, Some e) ->
  items = [] /\ next = ""
  /\ (e = ErrInvalidAfter /\ last = false
      \/ e = ErrNoAccessToken /\ last = true
         /\ stored_values db = []).
Proof.
  rewrite List_unfold.
  destruct (if String.eqb after "" then Some 0 else Atoi after) as [z|].
  2:{ intros H. injection H as <- <- <- <-. auto. }
  cbv zeta.
  destruct (Z.of_nat (length (stored_values db)) =? 0) eqn:E0.
  { intros H. injection H as <- <- <- <-. apply Z.eqb_eq in E0.
    destruct (stored_values db); [auto 6 | discriminate E0]. }
  destruct (Z.of_nat (length (stored_values db)) >? z).
  2:{ intros H. injection H as <- <- <- <-. auto. }
  destruct (slice _ _ _); intros H; discriminate H.
Qed.

(** X17: on an empty store [List] returns an error for every cursor and
    every limit, negative ones included, and never panics: InvalidAfter
    when the cursor does not parse, the store-empty error with the flag
    set otherwise. *)
Theorem List_on_empty_store db after limit defaultLimit :
  stored_values db = [] ->
  List db after limit defaultLimit
  = match cursor_offset after with
    | None => Returns ([], "", false, Some ErrInvalidAfter)
    | Some _ => Returns ([], "", true, Some ErrNoAccessToken)
    end.
Proof.
  intros E. destruct (cursor_offset after) as [z|] eqn:P.
  - exact (List_empty_store db after limit defaultLimit z P E).
  - exact (List_unparsable db after limit defaultLimit P).
Qed.

(** X18: when [List] panics.  For a store and a limit that fit in [int],
    [List] panics exactly when the cursor parses to an offset below the
    number of records of a store that is not empty, and the offset is
    negative, or the limit is negative, or [offset + limit] exceeds the
    largest [int]. *)
Theorem List_panics_exactly_when db after limit defaultLimit :
  int_min <= limit <= int_max ->
  Z.of_nat (length (stored_values db)) <= int_max ->
  List db after limit defaultLimit = Panics
  <-> exists z : Z,
        cursor_offset after = Some z
        /\ 0 < Z.of_nat (length (stored_values db))
        /\ z < Z.of_nat (length (stored_values db))
        /\ (z < 0 \/ limit < 0 \/ int_max < z + limit).
Proof.
  intros RL B. rewrite List_unfold. fold (cursor_offset after).
  set (total := Z.of_nat (length (stored_values db))) in *.
  destruct (cursor_offset after) as [z|].
  2:{ split; [discriminate | intros (z & Q & _); discriminate Q]. }
  cbv zeta. fold total.
  destruct (Z.eqb_spec total 0) as [E0 | N0].
  { split; [discriminate | intros (z' & _ & Q & _); lia]. }
  rewrite Z.gtb_ltb. destruct (Z.ltb_spec z total) as [Lt | Ge].
  2:{ split; [discriminate | intros (z' & Q & _ & Q' & _)].
      injection Q as <-. lia. }
  assert (Tp : 0 < total) by (unfold total in *; lia).
  unfold slice. fold total.
  destruct (Z.leb_spec 0 z) as [Z0 | Z0]; cbn [andb].
  2:{ split; [intros _; exists z; auto | reflexivity]. }
  unfold int_add, int_wrap. unfold int_min, int_max in *.
  destruct (Z.le_gt_cases (z + limit) (2 ^ 63 - 1)) as [S | S].
  - rewrite Z.mod_small by lia.
    replace (z + limit + 2 ^ 63 - 2 ^ 63) with (z + limit) by lia.
    rewrite Z.gtb_ltb.
    destruct (Z.ltb_spec (z + limit) total) as [C | C].
    + destruct (Z.leb_spec z (z + limit)) as [D | D]; cbn [andb].
      * replace (z + limit <=? total) with true
          by (symmetry; apply Z.leb_le; lia).
        split; [discriminate | intros (z' & Q & _ & _ & W)].
        injection Q as <-. lia.
      * split; [intros _; exists z; repeat split; try assumption; lia
               | reflexivity].
    + replace (z <=? total) with true by (symmetry; apply Z.leb_le; lia).
      rewrite Z.leb_refl. cbn [andb].
      split; [discriminate | intros (z' & Q & _ & _ & W)].
      injection Q as <-. lia.
  - replace ((z + limit + 2 ^ 63) mod 2 ^ 64) with (z + limit + 2 ^ 63 - 2 ^ 64).
    2:{ apply Z.mod_unique with (q := 1); lia. }
    rewrite Z.gtb_ltb.
    replace (z + limit + 2 ^ 63 - 2 ^ 64 - 2 ^ 63 <? total) with true
      by (symmetry; apply Z.ltb_lt; lia).
    replace (z <=? z + limit + 2 ^ 63 - 2 ^ 64 - 2 ^ 63) with false
      by (symmetry; apply Z.leb_gt; lia).
    cbn [andb].
    split; [intros _; exists z; repeat split; try assumption; lia
           | reflexivity].
Qed.

(** * Properties of the static asset handler *)

Section StaticFacts.
Import Static.

Lemma eqb_empty_false (s : string) : s <> "" -> String.eqb s "" = false.
Proof. intros N. now apply String.eqb_neq. Qed.

(** X19: when the handler answers NotFound.  A request is answered with
    [http.NotFound] exactly when its path has no asset, no fallback name
    is configured, and it is not the empty path with an index name
    configured. *)
Theorem ServeHTTP_not_found_exactly_when (h : Handler) (path : string) :
  ServeHTTP h path = NotFound
  <-> Assets h !! path = None
      /\ Default h = ""
      /\ (path <> "" \/ Index h = "").
Proof.
  unfold ServeHTTP, map_index_ok.
  destruct (Assets h !! path) as [v|] eqn:A; cbn [negb andb].
  - split; [discriminate | intros (Q & _); discriminate Q].
  - destruct (String.eqb_spec path "") as [-> | Np];
      destruct (String.eqb_spec (Index h) "") as [Ei | Ni];
      destruct (String.eqb_spec (Default h) "") as [Ed | Nd];
      cbn [negb andb]; split; try discriminate; try tauto;
      intros (_ & Q1 & Q2); try contradiction; destruct Q2; contradiction.
Qed.

(** X20: the index name wins over the fallback name, and a name without
    an asset serves an empty body.  For the empty path without an asset
    and a configured index name, the content is the asset of the index
    name, or the empty string when the index name has no asset; the
    fallback name is not consulted and NotFound is not answered. *)
Theorem ServeHTTP_empty_path_uses_index (h : Handler) :
  Assets h !! "" = None ->
  Index h <> "" ->
  ServeHTTP h ""
  = ServeContent "SAMEORIGIN" ""
      (match Assets h !! Index h with Some v => v | None => "" end).
Proof.
  intros A N. unfold ServeHTTP, map_index_ok, map_index. rewrite A.
  now rewrite (eqb_empty_false _ N).
Qed.

(** X21: with a fallback name configured no request is answered
    NotFound: a path without an asset, other than the empty path with an
    index name, gets the asset of the fallback name, or an empty body
    when the fallback name itself has no asset. *)
Theorem ServeHTTP_fallback_never_not_found (h : Handler) (path : string) :
  Default h <> "" ->
  ServeHTTP h path <> NotFound
  /\ (Assets h !! path = None ->
      path <> "" \/ Index h = "" ->
      ServeHTTP h path
      = ServeContent "SAMEORIGIN" path
          (match Assets h !! Default h with Some v => v | None => "" end)).
Proof.
  intros N. split.
  - unfold ServeHTTP, map_index_ok. rewrite (eqb_empty_false _ N).
    destruct (Assets h !! path); destruct (String.eqb path "");
      destruct (String.eqb (Index h) ""); cbn [negb andb]; discriminate.
  - intros A C. unfold ServeHTTP, map_index_ok, map_index. rewrite A.
    rewrite (eqb_empty_false _ N). cbn [negb andb].
    destruct C as [Np | Ei].
    + now rewrite (eqb_empty_false _ Np).
    + rewrite Ei. cbn. now rewrite andb_false_r.
Qed.

End StaticFacts.

(** * Properties of the query handlers *)

Section BalancesFacts.
Import Query.

Variable AssetIDType : Type.
Variable Sprintf_x : AssetIDType -> string.
Variable json_Marshal_assetAmounts : list (string * Z) -> string.

Local Abbreviation UTXO := (UTXO AssetIDType).
Local Abbreviation add_utxo := (add_utxo AssetIDType Sprintf_x).
Local Abbreviation accumulate := (accumulate AssetIDType Sprintf_x).
Local Abbreviation amounts_of := (amounts_of AssetIDType Sprintf_x).
Local Abbreviation account_entry := (account_entry json_Marshal_assetAmounts).
Local Abbreviation listBalances :=
  (listBalances AssetIDType Sprintf_x json_Marshal_assetAmounts).

Implicit Types (m : gmap string (gmap string Z)) (u : UTXO) (us : list UTXO).

Lemma add_utxo_other m u (a : string) :
  a <> AccountID u -> add_utxo m u !! a = m !! a.
Proof.
  intros N. unfold add_utxo.
  destruct (m !! AccountID u) as [i|]; [destruct (i !! _)|];
    now rewrite lookup_insert_ne by congruence.
Qed.

Lemma add_utxo_same m u :
  add_utxo m u !! AccountID u
  = Some (<[Sprintf_x (AssetID u) :=
              match entry_of m (AccountID u) (Sprintf_x (AssetID u)) with
              | Some sum => uint64_add sum (Amount u)
              | None => Amount u
              end]>
            (match m !! AccountID u with Some i => i | None => ∅ end)).
Proof.
  unfold add_utxo, entry_of.
  destruct (m !! AccountID u) as [i|]; [destruct (i !! _)|];
    rewrite lookup_insert_eq; reflexivity.
Qed.

Lemma entry_of_add_utxo m u (a s : string) :
  entry_of (add_utxo m u) a s
  = if bool_decide (AccountID u = a /\ Sprintf_x (AssetID u) = s)
    then tally_step (entry_of m a s) (Amount u)
    else entry_of m a s.
Proof.
  destruct (decide (a = AccountID u)) as [-> | Na].
  - unfold entry_of at 1. rewrite add_utxo_same.
    destruct (decide (Sprintf_x (AssetID u) = s)) as [<- | Ns].
    + rewrite bool_decide_eq_true_2 by auto. rewrite lookup_insert_eq.
      unfold tally_step. now destruct (entry_of m _ _).
    + rewrite bool_decide_eq_false_2 by tauto.
      rewrite lookup_insert_ne by exact Ns. unfold entry_of.
      now destruct (m !! AccountID u).
  - rewrite bool_decide_eq_false_2 by (intros [E _]; now apply Na).
    unfold entry_of. now rewrite add_utxo_other.
Qed.

Lemma entry_of_fold us m (a s : string) :
  entry_of (fold_left add_utxo us m) a s
  = fold_left tally_step (amounts_of a s us) (entry_of m a s).
Proof.
  revert m. induction us as [|u us IH]; intros m; [reflexivity|].
  cbn [fold_left]. rewrite IH, entry_of_add_utxo.
  unfold Query.amounts_of. rewrite filter_cons.
  destruct (decide (AccountID u = a /\ Sprintf_x (AssetID u) = s)) as [Y | N].
  - now rewrite bool_decide_eq_true_2 by exact Y.
  - now rewrite bool_decide_eq_false_2 by exact N.
Qed.

Lemma is_Some_fold us m (a : string) :
  is_Some (fold_left add_utxo us m !! a)
  <-> is_Some (m !! a) \/ exists u, u ∈ us /\ AccountID u = a.
Proof.
  revert m. induction us as [|u us IH]; intros m; cbn [fold_left].
  - split; [auto | intros [H | (u & H & _)]; [exact H | inversion H]].
  - rewrite IH. split.
    + intros [H | (v & Hv & E)].
      * destruct (decide (a = AccountID u)) as [-> | N].
        -- right. exists u. split; [left | reflexivity].
        -- rewrite add_utxo_other in H by exact N. now left.
      * right. exists v. split; [now right | exact E].
    + intros [H | (v & Hv & E)].
      * left. destruct (decide (a = AccountID u)) as [-> | N].
        -- rewrite add_utxo_same. eauto.
        -- now rewrite add_utxo_other by exact N.
      * apply elem_of_cons in Hv as [-> | Hv].
        -- left. subst a. rewrite add_utxo_same. eauto.
        -- right. eauto.
Qed.

Lemma uint64_add_in_range (a b : Z) : 0 <= uint64_add a b < 2 ^ 64.
Proof. unfold uint64_add. apply Z.mod_pos_bound. lia. Qed.

Lemma tally_sum (l : list Z) (o : option Z) :
  Forall (fun x => 0 <= x < 2 ^ 64) l ->
  match o with Some y => 0 <= y < 2 ^ 64 | None => True end ->
  match fold_left tally_step l o with
  | Some y =>
      y = (match o with Some z => z | None => 0 end + fold_right Z.add 0 l)
          mod 2 ^ 64
      /\ (o = None -> l <> [])
  | None => o = None /\ l = []
  end.
Proof.
  intros F. revert o. induction F as [|x l Hx F IH]; intros o Ho.
  - cbn. destruct o as [y|]; [| auto].
    split; [| discriminate]. rewrite Z.add_0_r, Z.mod_small; lia.
  - cbn [fold_left fold_right].
    specialize (IH (tally_step o x)).
    destruct o as [y|]; cbn [tally_step] in *.
    + specialize (IH (uint64_add_in_range y x)).
      destruct (fold_left tally_step l _) as [r|]; [| destruct IH; discriminate].
      destruct IH as [-> _]. split; [| discriminate].
      unfold uint64_add. rewrite Zplus_mod_idemp_l. f_equal. lia.
    + specialize (IH Hx).
      destruct (fold_left tally_step l _) as [r|]; [| destruct IH; discriminate].
      destruct IH as [-> _]. split; [| discriminate]. reflexivity.
Qed.

(** X22: the balance [listBalances] reports for an account and an asset
    is the sum of the amounts of the outputs of that account in that
    asset, reduced modulo 2^64 (the amounts being [uint64] values); an
    entry is recorded exactly when there is such an output. *)
Theorem balance_is_wrapped_sum us (account asset : string) :
  Forall (fun u => 0 <= Amount u < 2 ^ 64) us ->
  balance_of (accumulate us) account asset
  = fold_right Z.add 0 (amounts_of account asset us) mod 2 ^ 64
  /\ (is_Some (entry_of (accumulate us) account asset)
      <-> amounts_of account asset us <> []).
Proof.
  intros R.
  assert (Ra : Forall (fun x => 0 <= x < 2 ^ 64) (amounts_of account asset us)).
  { apply Forall_forall. intros x Hx.
    apply list_elem_of_fmap in Hx as (u & -> & Hu).
    apply list_elem_of_filter in Hu as [_ Hu].
    exact (proj1 (Forall_forall _ _) R u Hu). }
  pose proof (tally_sum _ None Ra I) as T.
  pose proof (entry_of_fold us ∅ account asset) as E.
  change (entry_of ∅ account asset) with (@None Z) in E.
  fold (accumulate us) in E.
  assert (B : balance_of (accumulate us) account asset
              = match entry_of (accumulate us) account asset with
                | Some y => y | None => 0 end).
  { unfold balance_of, entry_of. now destruct (accumulate us !! account). }
  rewrite B, E.
  destruct (fold_left tally_step _ None) as [y|].
  - destruct T as [-> T]. split; [reflexivity|]. split; eauto.
  - destruct T as [_ ->]. split; [reflexivity|].
    split; [intros [? Q]; discriminate Q | intros N; now contradiction N].
Qed.

Lemma tally_step_comm (o : option Z) (x y : Z) :
  tally_step (tally_step o x) y = tally_step (tally_step o y) x.
Proof.
  destruct o as [z|]; cbn [tally_step]; unfold uint64_add; f_equal.
  - rewrite !Zplus_mod_idemp_l. f_equal. lia.
  - f_equal. lia.
Qed.

Lemma tally_permutation (l l' : list Z) :
  l ≡ₚ l' ->
  forall o, fold_left tally_step l o = fold_left tally_step l' o.
Proof.
  induction 1 as [|x l l' _ IH|x y l|l l' l'' _ IH1 _ IH2]; intros o;
    cbn [fold_left].
  - reflexivity.
  - apply IH.
  - now rewrite tally_step_comm.
  - now rewrite IH1, IH2.
Qed.

Lemma accumulate_permutation us us' :
  us ≡ₚ us' -> accumulate us = accumulate us'.
Proof.
  intros P. apply map_eq. intros a.
  assert (Hs : is_Some (accumulate us !! a) <-> is_Some (accumulate us' !! a)).
  { unfold Query.accumulate. rewrite !is_Some_fold.
    split; intros [H | (u & Hu & E)]; try (now left); right; exists u;
      (split; [| exact E]); [now rewrite <- P | now rewrite P]. }
  assert (He : forall s, entry_of (accumulate us) a s
                         = entry_of (accumulate us') a s).
  { intros s. unfold Query.accumulate. rewrite !entry_of_fold.
    apply tally_permutation. unfold Query.amounts_of. now rewrite P. }
  unfold entry_of in He.
  destruct (accumulate us !! a) as [i|] eqn:E1,
           (accumulate us' !! a) as [i'|] eqn:E2.
  - f_equal. apply map_eq. exact He.
  - destruct (proj1 Hs (mk_is_Some _ _ eq_refl)) as [? Q]. discriminate Q.
  - destruct (proj2 Hs (mk_is_Some _ _ eq_refl)) as [? Q]. discriminate Q.
  - reflexivity.
Qed.

(** X23: the answer of [listBalances] does not depend on the order in
    which the outputs are scanned: two lists of outputs that are
    permutations of each other give the same response. *)
Theorem listBalances_order_independent us us' :
  us ≡ₚ us' -> listBalances us = listBalances us'.
Proof.
  intros P. unfold Query.listBalances.
  now rewrite (accumulate_permutation us us' P).
Qed.

Lemma response_fold (f : string -> string) (l acc : list string) :
  fold_left (fun response account => (response ++ [f account])%list) l acc
  = (acc ++ (f <$> l))%list.
Proof.
  revert acc. induction l as [|a l IH]; intros acc; cbn [fold_left fmap list_fmap].
  - now rewrite app_nil_r.
  - rewrite IH, <- app_assoc. reflexivity.
Qed.

Lemma elem_of_range_keys {V : Type} (m : gmap string V) (k : string) :
  k ∈ range_keys m <-> is_Some (m !! k).
Proof.
  unfold range_keys. rewrite list_elem_of_fmap. split.
  - intros ([k' v] & -> & H). apply elem_of_map_to_list in H. eauto.
  - intros [v H]. exists (k, v). split; [reflexivity|].
    now apply elem_of_map_to_list.
Qed.

(** X24: [listBalances] answers with one entry per account that owns an
    output, in increasing order of the account identifier and without
    repetition. *)
Theorem listBalances_one_entry_per_account us :
  exists accounts : list string,
    listBalances us = account_entry (accumulate us) <$> accounts
    /\ Sorted String.le accounts
    /\ NoDup accounts
    /\ forall a : string,
         a ∈ accounts <-> exists u, u ∈ us /\ AccountID u = a.
Proof.
  exists (sort_Strings (range_keys (accumulate us))).
  split; [unfold Query.listBalances; apply response_fold|].
  split; [apply Sorted_merge_sort; apply _|].
  split.
  - unfold sort_Strings. rewrite merge_sort_Permutation.
    apply NoDup_fst_map_to_list.
  - intros a. unfold sort_Strings. rewrite merge_sort_Permutation.
    rewrite elem_of_range_keys. unfold Query.accumulate.
    rewrite is_Some_fold, lookup_empty. split.
    + intros [[? Q] | H]; [discriminate Q | exact H].
    + auto.
Qed.

End BalancesFacts.

Section TransactionsFacts.
Import Query.

Variable StatusType : Type.
Variable SUCCESS FAIL : StatusType.
Variable json_Unmarshal_AnnotatedTx : string -> option string.

Local Abbreviation Response := (Response StatusType).
Local Abbreviation scan_transactions :=
  (scan_transactions StatusType FAIL json_Unmarshal_AnnotatedTx).
Local Abbreviation transactions_response :=
  (transactions_response StatusType SUCCESS FAIL json_Unmarshal_AnnotatedTx).

Lemma scan_transactions_spec (response : Response)
    (annotatedTxs : list string) (entries : list (string * string)) :
  exists taken rest : list string,
    snd <$> entries = (taken ++ rest)%list
    /\ snd (scan_transactions response annotatedTxs entries)
       = (annotatedTxs ++ taken)%list
    /\ Forall (fun v => json_Unmarshal_AnnotatedTx v = None) taken
    /\ (rest = []
        /\ fst (scan_transactions response annotatedTxs entries) = response
        \/ exists (v : string) (rest' : list string) (err : string),
             rest = v :: rest'
             /\ json_Unmarshal_AnnotatedTx v = Some err
             /\ fst (scan_transactions response annotatedTxs entries)
                = {| Status := FAIL; Msg := err; Data := Data response |}).
Proof.
  revert annotatedTxs. induction entries as [|kv entries IH]; intros txs.
  - exists [], []. cbn [Query.scan_transactions fst snd].
    split; [reflexivity|]. split; [now rewrite app_nil_r|].
    split; [constructor|]. left. split; reflexivity.
  - cbn [Query.scan_transactions].
    destruct (json_Unmarshal_AnnotatedTx (snd kv)) as [err|] eqn:D.
    + exists [], (snd <$> kv :: entries). cbn [fst snd].
      rewrite app_nil_r. repeat split; [constructor|].
      right. exists (snd kv), (snd <$> entries), err. auto.
    + destruct (IH (txs ++ [snd kv])%list) as (taken & rest & E & S & F & C).
      exists (snd kv :: taken), rest.
      split; [cbn; now rewrite E|].
      split; [now rewrite S, <- app_assoc|].
      split; [now constructor|]. exact C.
Qed.

(** X25: [listTransactions] stops at the first stored transaction that
    does not decode.  The data of the response are the values scanned
    before that transaction, all of which decode; the status is SUCCESS
    with an empty message when there is no such transaction, and FAIL
    with the message of the decoding error otherwise, the transactions
    after it being left out. *)
Theorem listTransactions_stops_at_first_error
    (entries : list (string * string)) :
  exists rest : list string,
    snd <$> entries = (Data (transactions_response entries) ++ rest)%list
    /\ Forall (fun v => json_Unmarshal_AnnotatedTx v = None)
         (Data (transactions_response entries))
    /\ (rest = []
        /\ Status (transactions_response entries) = SUCCESS
        /\ Msg (transactions_response entries) = ""
        \/ exists (v : string) (rest' : list string),
             rest = v :: rest'
             /\ json_Unmarshal_AnnotatedTx v
                = Some (Msg (transactions_response entries))
             /\ Status (transactions_response entries) = FAIL).
Proof.
  unfold Query.transactions_response.
  destruct (scan_transactions_spec
              {| Status := SUCCESS; Msg := ""; Data := [] |} [] entries)
    as (taken & rest & E & S & F & C).
  destruct (scan_transactions _ [] entries) as [response txs].
  cbn [fst snd app] in *. subst txs. cbn [Data Status Msg].
  exists rest. split; [exact E|]. split; [exact F|].
  destruct C as [[-> ->] | (v & rest' & err & -> & D & ->)].
  - left. auto.
  - right. exists v, rest'. auto.
Qed.

End TransactionsFacts.

Section UTXOFacts.
Import Query.

Variable AssetIDType : Type.
Variable json_Unmarshal_UTXO :
  string -> UTXO AssetIDType -> UTXO AssetIDType * option string.

Local Abbreviation GetAccountUTXOs :=
  (GetAccountUTXOs AssetIDType json_Unmarshal_UTXO).

Lemma GetAccountUTXOs_fold_length
    (entries : list (string * string))
    (u zero : UTXO AssetIDType) (acc : list (UTXO AssetIDType)) :
  (forall (value : string) (u1 u2 : UTXO AssetIDType),
      snd (json_Unmarshal_UTXO value u1)
      = snd (json_Unmarshal_UTXO value u2)) ->
  length
    (snd (fold_left
            (fun '(accountUTXO, accountUTXOs) kv =>
               match json_Unmarshal_UTXO (snd kv) accountUTXO with
               | (accountUTXO', Some _) => (accountUTXO', accountUTXOs)
               | (accountUTXO', None) =>
                   (accountUTXO', (accountUTXOs ++ [accountUTXO'])%list)
               end) entries (u, acc)))
  = (length acc
     + length (filter (fun kv => snd (json_Unmarshal_UTXO (snd kv) zero)
                                 = None) entries))%nat.
Proof.
  intros Ind. revert u acc.
  induction entries as [|kv entries IH]; intros u acc; cbn [fold_left].
  - cbn. lia.
  - rewrite filter_cons. pose proof (Ind (snd kv) u zero) as I.
    destruct (json_Unmarshal_UTXO (snd kv) u) as [u' e].
    cbn [snd] in I. subst e.
    destruct (json_Unmarshal_UTXO (snd kv) zero) as [z' [err|]]; cbn [snd].
    + rewrite decide_False by discriminate. apply IH.
    + rewrite decide_True by reflexivity. rewrite IH, length_app.
      cbn [length]. lia.
Qed.

Lemma GetAccountUTXOs_fold_from_decodes
    (entries : list (string * string))
    (u : UTXO AssetIDType) (acc : list (UTXO AssetIDType))
    (x : UTXO AssetIDType) :
  x ∈ snd (fold_left
             (fun '(accountUTXO, accountUTXOs) kv =>
                match json_Unmarshal_UTXO (snd kv) accountUTXO with
                | (accountUTXO', Some _) => (accountUTXO', accountUTXOs)
                | (accountUTXO', None) =>
                    (accountUTXO', (accountUTXOs ++ [accountUTXO'])%list)
                end) entries (u, acc)) ->
  x ∈ acc
  \/ exists (kv : string * string) (before : UTXO AssetIDType),
       kv ∈ entries /\ json_Unmarshal_UTXO (snd kv) before = (x, None).
Proof.
  revert u acc. induction entries as [|kv entries IH]; intros u acc;
    cbn [fold_left].
  - intros H. now left.
  - destruct (json_Unmarshal_UTXO (snd kv) u) as [u' [err|]] eqn:D;
      intros H; apply IH in H as [H | (kv' & before & Hin & Hd)].
    + now left.
    + right. exists kv', before. split; [now right | exact Hd].
    + apply elem_of_app in H as [H | H]; [now left|].
      apply list_elem_of_singleton in H as ->.
      right. exists kv, u. split; [now left | exact D].
    + right. exists kv', before. split; [now right | exact Hd].
Qed.

(** X26: an entry that does not decode is skipped, and the scan goes on.
    When whether a value decodes does not depend on what the reused
    struct holds, [GetAccountUTXOs] returns as many outputs as there are
    entries that decode, and each output it returns is the struct that
    the decoding of some entry left, without error. *)
Theorem GetAccountUTXOs_skips_undecodable
    (zero : UTXO AssetIDType) (entries : list (string * string)) :
  (forall (value : string) (u1 u2 : UTXO AssetIDType),
      snd (json_Unmarshal_UTXO value u1)
      = snd (json_Unmarshal_UTXO value u2)) ->
  length (GetAccountUTXOs zero entries)
  = length (filter (fun kv => snd (json_Unmarshal_UTXO (snd kv) zero) = None)
              entries)
  /\ forall x : UTXO AssetIDType,
       x ∈ GetAccountUTXOs zero entries ->
       exists (kv : string * string) (before : UTXO AssetIDType),
         kv ∈ entries /\ json_Unmarshal_UTXO (snd kv) before = (x, None).
Proof.
  intros Ind. unfold Query.GetAccountUTXOs. split.
  - rewrite (GetAccountUTXOs_fold_length entries zero zero [] Ind).
    reflexivity.
  - intros x H.
    apply GetAccountUTXOs_fold_from_decodes in H as [H | H];
      [inversion H | exact H].
Qed.

End UTXOFacts.

(** * The further properties at work on the reference collaborators *)

Ltac by_computation := vm_compute; repeat split; congruence.

Lemma Check_true_only_on_matching_digest_witness :
  Check Reference.Time Reference.Sum256 Reference.json_Unmarshal_Token
    Reference.store1 "alice" Reference.secret0 = (true, None)
  /\ Regexp.MatchString validIDRegexp "alice" = true
  /\ @None error = None
  /\ exists (value : string) (tok : Token Reference.Time),
       DB.Get Reference.store1 (json_Marshal_string "alice") = Some value
       /\ Reference.json_Unmarshal_Token value = inl tok
       /\ TokenDigest tok
          = Sprintf_s_x "alice"
              (Reference.Sum256 (frame32 Reference.secret0)).
Proof.
  split; [vm_compute; reflexivity|].
  apply (Check_true_only_on_matching_digest Reference.Time Reference.Sum256
           Reference.json_Unmarshal_Token Reference.store1 "alice"
           Reference.secret0 None).
  vm_compute. reflexivity.
Defined.

Lemma Check_after_Create_accepts_exactly_the_hash_witness :
  json_codec_contract Reference.Time
    Reference.json_Marshal_Token Reference.json_Unmarshal_Token
  /\ Create Reference.Time Reference.Sum256 Reference.json_Marshal_Token
       ∅ Reference.rand_ok Reference.now0 "alice" "client"
     = (Some (Sprintf_s_x "alice" Reference.secret0), None, Reference.store1)
  /\ snd (Check Reference.Time Reference.Sum256
            Reference.json_Unmarshal_Token Reference.store1 "alice"
            (firstn 5 Reference.secret0)) = None
  /\ (fst (Check Reference.Time Reference.Sum256
             Reference.json_Unmarshal_Token Reference.store1 "alice"
             (firstn 5 Reference.secret0)) = true
      <-> Reference.Sum256 (frame32 (firstn 5 Reference.secret0))
          = Reference.Sum256
              (firstn 32 (rand_bytes Reference.rand_ok))).
Proof.
  split; [exact Reference_codec_contract|].
  split; [vm_compute; reflexivity|].
  apply (Check_after_Create_accepts_exactly_the_hash Reference.Time
           Reference.Sum256 Reference.json_Marshal_Token
           Reference.json_Unmarshal_Token ∅ Reference.rand_ok Reference.now0
           "alice" "client" (Sprintf_s_x "alice" Reference.secret0) None
           Reference.store1 (firstn 5 Reference.secret0)
           Reference_codec_contract).
  vm_compute. reflexivity.
Defined.

Lemma Check_after_Delete_is_NoMatchID_witness :
  Regexp.MatchString validIDRegexp "alice" = true
  /\ Check Reference.Time Reference.Sum256 Reference.json_Unmarshal_Token
       (snd (Delete Reference.store1 "alice")) "alice" Reference.secret0
     = (false, Some ErrNoMatchID).
Proof.
  split; [reflexivity|].
  apply (Check_after_Delete_is_NoMatchID Reference.Time Reference.Sum256
           Reference.json_Unmarshal_Token Reference.store1 "alice"
           Reference.secret0).
  reflexivity.
Defined.

Lemma Create_failure_leaves_store_witness :
  Create Reference.Time Reference.Sum256 Reference.json_Marshal_Token
    Reference.store1 Reference.rand_failed Reference.now0 "bob" "client"
  = (None, Some (ErrRand "unexpected EOF"), Reference.store1)
  /\ Reference.store1 = Reference.store1.
Proof.
  split; [vm_compute; reflexivity|].
  apply (Create_failure_leaves_store Reference.Time Reference.Sum256
           Reference.json_Marshal_Token Reference.store1
           Reference.rand_failed Reference.now0 "bob" "client"
           (Some (ErrRand "unexpected EOF")) Reference.store1).
  vm_compute. reflexivity.
Defined.

Lemma Delete_undoes_Create_witness :
  Create Reference.Time Reference.Sum256 Reference.json_Marshal_Token
    Reference.store1 Reference.rand_ok Reference.now0 "bob" "client"
  = (Some (Sprintf_s_x "bob" Reference.secret0), None, Reference.store2)
  /\ Delete Reference.store2 "bob" = (None, Reference.store1).
Proof.
  split; [vm_compute; reflexivity|].
  apply (Delete_undoes_Create Reference.Time Reference.Sum256
           Reference.json_Marshal_Token Reference.store1 Reference.rand_ok
           Reference.now0 "bob" "client"
           (Sprintf_s_x "bob" Reference.secret0) None Reference.store2).
  vm_compute. reflexivity.
Defined.

Lemma Check_unaffected_by_other_id_witness :
  "alice" <> "bob"
  /\ Check Reference.Time Reference.Sum256 Reference.json_Unmarshal_Token
       (snd (Create Reference.Time Reference.Sum256
               Reference.json_Marshal_Token Reference.store1
               Reference.rand_ok Reference.now0 "bob" "client"))
       "alice" Reference.secret0
     = Check Reference.Time Reference.Sum256 Reference.json_Unmarshal_Token
         Reference.store1 "alice" Reference.secret0
  /\ Check Reference.Time Reference.Sum256 Reference.json_Unmarshal_Token
       (snd (Delete Reference.store1 "bob")) "alice" Reference.secret0
     = Check Reference.Time Reference.Sum256 Reference.json_Unmarshal_Token
         Reference.store1 "alice" Reference.secret0.
Proof.
  assert (N : "alice" <> "bob") by discriminate.
  split; [exact N|].
  exact (Check_unaffected_by_other_id Reference.Time Reference.Sum256
           Reference.json_Marshal_Token Reference.json_Unmarshal_Token
           Reference.store1 Reference.rand_ok Reference.now0 "alice" "bob"
           "client" Reference.secret0 N).
Defined.

Lemma Create_adds_one_record_witness :
  Create Reference.Time Reference.Sum256 Reference.json_Marshal_Token
    Reference.store1 Reference.rand_ok Reference.now0 "bob" "client"
  = (Some (Sprintf_s_x "bob" Reference.secret0), None, Reference.store2)
  /\ exists value : string,
       Reference.json_Marshal_Token
         (record_of Reference.Time Reference.Sum256 "bob" "client"
            (firstn 32 (rand_bytes Reference.rand_ok)) Reference.now0)
       = inl value
       /\ DB.Get Reference.store2 (json_Marshal_string "bob") = Some value
       /\ stored_values Reference.store2
          ≡ₚ value :: stored_values Reference.store1.
Proof.
  split; [vm_compute; reflexivity|].
  apply (Create_adds_one_record Reference.Time Reference.Sum256
           Reference.json_Marshal_Token Reference.store1 Reference.rand_ok
           Reference.now0 "bob" "client"
           (Sprintf_s_x "bob" Reference.secret0) None Reference.store2).
  vm_compute. reflexivity.
Defined.

Lemma Create_issuance_format_witness :
  Create Reference.Time Reference.Sum256 Reference.json_Marshal_Token
    ∅ Reference.rand_ok Reference.now0 "alice" "client"
  = (Some (Sprintf_s_x "alice" Reference.secret0), None, Reference.store1)
  /\ exists hex : string,
       Sprintf_s_x "alice" Reference.secret0 = "alice" ++ ":" ++ hex
       /\ String.length hex = 64%nat
       /\ Regexp.all_chars is_lower_hex hex = true.
Proof.
  split; [vm_compute; reflexivity|].
  apply (Create_issuance_format Reference.Time Reference.Sum256
           Reference.json_Marshal_Token ∅ Reference.rand_ok Reference.now0
           "alice" "client" (Sprintf_s_x "alice" Reference.secret0) None
           Reference.store1).
  vm_compute. reflexivity.
Defined.



Lemma List_serves_page_witness :
  cursor_offset "1" = Some 1
  /\ 0 <= 1 < Z.of_nat (length (stored_values Reference.store2))
  /\ 0 <= 5
  /\ 1 + 5 <= int_max
  /\ exists (items : list string) (next : string) (last : bool),
       List Reference.store2 "1" 5 1 = Returns (items, next, last, None)
       /\ items = firstn (Z.to_nat 5)
                    (skipn (Z.to_nat 1) (stored_values Reference.store2))
       /\ Z.of_nat (length items)
          = Z.min 5 (Z.of_nat (length (stored_values Reference.store2)) - 1)
       /\ cursor_offset next = Some (1 + Z.of_nat (length items))
       /\ (last = true
           <-> 1 + Z.of_nat (length items)
               = Z.of_nat (length (stored_values Reference.store2))
               \/ Z.of_nat (length (stored_values Reference.store2)) < 1).
Proof.
  split; [reflexivity|]. split; [by_computation|]. split; [lia|].
  split; [by_computation|].
  apply (List_serves_page Reference.store2 "1" 5 1 1);
    [reflexivity | by_computation | lia | by_computation].
Defined.

Lemma List_pages_compose_witness :
  cursor_offset "" = Some 0
  /\ 0 <= 0 /\ 0 <= 1 /\ 0 <= 1
  /\ 0 + 1 < Z.of_nat (length (stored_values Reference.store2))
  /\ 0 + 1 + 1 <= int_max
  /\ exists (items1 items2 : list string) (next1 next2 : string)
            (last1 last2 : bool),
       List Reference.store2 "" 1 1 = Returns (items1, next1, last1, None)
       /\ List Reference.store2 next1 1 1
          = Returns (items2, next2, last2, None)
       /\ List Reference.store2 "" (1 + 1) 1
          = Returns ((items1 ++ items2)%list, next2, last2, None).
Proof.
  split; [reflexivity|]. split; [lia|]. split; [lia|]. split; [lia|].
  split; [by_computation|]. split; [by_computation|].
  apply (List_pages_compose Reference.store2 "" 1 1 1 0);
    [reflexivity | lia | lia | lia | by_computation | by_computation].
Defined.

Lemma List_cursor_after_final_page_rejected_witness :
  cursor_offset "1" = Some 1
  /\ 0 <= 1 < Z.of_nat (length (stored_values Reference.store2))
  /\ Z.of_nat (length (stored_values Reference.store2)) <= 1 + 10
  /\ 1 + 10 <= int_max
  /\ exists (items : list string) (next : string),
       List Reference.store2 "1" 10 1 = Returns (items, next, true, None)
       /\ List Reference.store2 next 10 1
          = Returns ([], "", false, Some ErrInvalidAfter).
Proof.
  split; [reflexivity|]. split; [by_computation|]. split; [by_computation|].
  split; [by_computation|].
  apply (List_cursor_after_final_page_rejected Reference.store2 "1" 10 1 1 10 1);
    [reflexivity | by_computation | by_computation | by_computation].
Defined.

Lemma List_flags_last_while_records_remain_witness :
  cursor_offset "" = Some 0
  /\ 0 <= 0 /\ 0 <= 1
  /\ 0 + 1 < Z.of_nat (length (stored_values Reference.store2))
  /\ Z.of_nat (length (stored_values Reference.store2)) < defGenericPageSize
  /\ Z.of_nat (length (stored_values Reference.store2)) <= int_max
  /\ exists (items items' : list string) (next next' : string) (last' : bool),
       List Reference.store2 "" 1 defGenericPageSize
       = Returns (items, next, true, None)
       /\ List Reference.store2 next 1 defGenericPageSize
          = Returns (items', next', last', None)
       /\ length items' = 1%nat.
Proof.
  split; [reflexivity|]. split; [lia|]. split; [lia|].
  split; [by_computation|]. split; [by_computation|].
  split; [by_computation|].
  apply (List_flags_last_while_records_remain Reference.store2 ""
           1 defGenericPageSize 0);
    [reflexivity | lia | lia | by_computation | by_computation
    | by_computation].
Defined.

Lemma List_error_has_no_items_witness :
  List Reference.store1 "5" 10 defGenericPageSize
  = Returns ([], "", false, Some ErrInvalidAfter)
  /\ @nil string = [] /\ "" = ""
  /\ (ErrInvalidAfter = ErrInvalidAfter /\ false = false
      \/ ErrInvalidAfter = ErrNoAccessToken /\ false = true
         /\ stored_values Reference.store1 = []).
Proof.
  split; [vm_compute; reflexivity|].
  apply (List_error_has_no_items Reference.store1 "5" 10 defGenericPageSize
           [] "" false ErrInvalidAfter).
  vm_compute. reflexivity.
Defined.

Lemma List_on_empty_store_witness :
  stored_values ∅ = []
  /\ List ∅ "3" (-1) defGenericPageSize
     = match cursor_offset "3" with
       | None => Returns ([], "", false, Some ErrInvalidAfter)
       | Some _ => Returns ([], "", true, Some ErrNoAccessToken)
       end.
Proof.
  split; [reflexivity|].
  apply (List_on_empty_store ∅ "3" (-1) defGenericPageSize). reflexivity.
Defined.

Lemma List_panics_exactly_when_witness :
  int_min <= -1 <= int_max
  /\ Z.of_nat (length (stored_values Reference.store1)) <= int_max
  /\ (List Reference.store1 "0" (-1) defGenericPageSize = Panics
      <-> exists z : Z,
            cursor_offset "0" = Some z
            /\ 0 < Z.of_nat (length (stored_values Reference.store1))
            /\ z < Z.of_nat (length (stored_values Reference.store1))
            /\ (z < 0 \/ -1 < 0 \/ int_max < z + -1)).
Proof.
  split; [by_computation|]. split; [by_computation|].
  apply (List_panics_exactly_when Reference.store1 "0" (-1)
           defGenericPageSize);
    by_computation.
Defined.

Lemma ServeHTTP_empty_path_uses_index_witness :
  Static.Assets Static.site !! "" = None
  /\ Static.Index Static.site <> ""
  /\ Static.ServeHTTP Static.site ""
     = Static.ServeContent "SAMEORIGIN" ""
         (match Static.Assets Static.site !! Static.Index Static.site with
          | Some v => v
          | None => ""
          end).
Proof.
  assert (N : Static.Index Static.site <> "") by discriminate.
  split; [vm_compute; reflexivity|]. split; [exact N|].
  apply (ServeHTTP_empty_path_uses_index Static.site);
    [vm_compute; reflexivity | exact N].
Defined.

Lemma ServeHTTP_fallback_never_not_found_witness :
  Static.Default Static.site <> ""
  /\ Static.ServeHTTP Static.site "nowhere" <> Static.NotFound
  /\ Static.ServeHTTP Static.site "nowhere"
     = Static.ServeContent "SAMEORIGIN" "nowhere" "".
Proof.
  assert (N : Static.Default Static.site <> "") by discriminate.
  destruct (ServeHTTP_fallback_never_not_found Static.site "nowhere" N)
    as [H1 H2].
  split; [exact N|]. split; [exact H1|].
  rewrite H2; [vm_compute; reflexivity | vm_compute; reflexivity
              | left; discriminate].
Defined.

Lemma balance_is_wrapped_sum_witness :
  Forall (fun u => 0 <= Query.Amount u < 2 ^ 64) QueryExample.outputs
  /\ Query.balance_of
       (Query.accumulate (list byte) hex_encode QueryExample.outputs)
       "alice" "0a"
     = fold_right Z.add 0
         (Query.amounts_of (list byte) hex_encode "alice" "0a"
            QueryExample.outputs) mod 2 ^ 64
  /\ (is_Some
        (Query.entry_of
           (Query.accumulate (list byte) hex_encode QueryExample.outputs)
           "alice" "0a")
      <-> Query.amounts_of (list byte) hex_encode "alice" "0a"
            QueryExample.outputs <> []).
Proof.
  assert (R : Forall (fun u => 0 <= Query.Amount u < 2 ^ 64)
                QueryExample.outputs)
    by (repeat constructor; by_computation).
  split; [exact R|].
  exact (balance_is_wrapped_sum (list byte) hex_encode QueryExample.outputs
           "alice" "0a" R).
Defined.

Lemma listBalances_order_independent_witness :
  QueryExample.outputs ≡ₚ QueryExample.outputs_reordered
  /\ Query.listBalances (list byte) hex_encode
       QueryExample.Marshal_assetAmounts QueryExample.outputs
     = Query.listBalances (list byte) hex_encode
         QueryExample.Marshal_assetAmounts QueryExample.outputs_reordered.
Proof.
  assert (P : QueryExample.outputs ≡ₚ QueryExample.outputs_reordered).
  { unfold QueryExample.outputs, QueryExample.outputs_reordered.
    etransitivity; [apply perm_swap|]. apply perm_skip, perm_swap. }
  split; [exact P|].
  exact (listBalances_order_independent (list byte) hex_encode
           QueryExample.Marshal_assetAmounts _ _ P).
Defined.

Lemma Unmarshal_UTXO_error_of_value
    (value : string) (u1 u2 : QueryExample.UTXO) :
  snd (QueryExample.Unmarshal_UTXO value u1)
  = snd (QueryExample.Unmarshal_UTXO value u2).
Proof.
  unfold QueryExample.Unmarshal_UTXO. now destruct (hex_decode value).
Qed.

Lemma GetAccountUTXOs_skips_undecodable_witness :
  (forall (value : string) (u1 u2 : QueryExample.UTXO),
      snd (QueryExample.Unmarshal_UTXO value u1)
      = snd (QueryExample.Unmarshal_UTXO value u2))
  /\ Query.GetAccountUTXOs (list byte) QueryExample.Unmarshal_UTXO
       (QueryExample.output [] 7 "bob")
       [("k1", "0a"); ("k2", "zz"); ("k3", "0b")]
     = [QueryExample.output [x0a] 7 "bob";
        QueryExample.output [x0b] 7 "bob"]
  /\ length
       (Query.GetAccountUTXOs (list byte) QueryExample.Unmarshal_UTXO
          (QueryExample.output [] 7 "bob")
          [("k1", "0a"); ("k2", "zz"); ("k3", "0b")])
     = length
         (filter (fun kv =>
                    snd (QueryExample.Unmarshal_UTXO (snd kv)
                           (QueryExample.output [] 7 "bob")) = None)
            [("k1", "0a"); ("k2", "zz"); ("k3", "0b")]).
Proof.
  split; [exact Unmarshal_UTXO_error_of_value|].
  split; [vm_compute; reflexivity|].
  exact (proj1 (GetAccountUTXOs_skips_undecodable (list byte)
                  QueryExample.Unmarshal_UTXO
                  (QueryExample.output [] 7 "bob")
                  [("k1", "0a"); ("k2", "zz"); ("k3", "0b")]
                  Unmarshal_UTXO_error_of_value)).
Defined.
